(** * Core-data Mongo client: a shallow embedding and its contract

    The Go file under verification is the data-access layer of the core-data
    service: CRUD operations over the [event], [reading] and
    [valueDescriptor] collections of a MongoDB database, reached through the
    mgo driver.  The client functions are embedded as state-passing
    functions over an in-memory [Database]; the clock ([time.Now]) is an
    explicit argument, and the outcome of every driver round trip is read
    from a schedule carried by the database, so that connectivity failures
    can be injected at any call. *)

From Stdlib Require Import ZArith NArith List String Ascii Bool Lia.
From Stdlib Require Import DecimalString Permutation.
Import ListNotations.

Local Open Scope string_scope.
Local Open Scope list_scope.

(* ===================================================================== *)
(** ** bson: object identifiers *)
(* ===================================================================== *)

Module Bson.

(** [type ObjectId string]: the twelve raw bytes of the identifier; the
    zero value is the empty string. *)
Definition ObjectId := string.

Definition ObjectId_eqb (a b : ObjectId) : bool := String.eqb a b.

(** Value of one hexadecimal digit, as [encoding/hex] reads it. *)
Definition hexDigit (c : ascii) : option N :=
  let n := N_of_ascii c in
  if ((48 <=? n) && (n <=? 57))%N then Some (n - 48)%N
  else if ((97 <=? n) && (n <=? 102))%N then Some (n - 87)%N
  else if ((65 <=? n) && (n <=? 70))%N then Some (n - 55)%N
  else None.

(** [hex.DecodeString]: two digits per byte; [None] on an odd length or
    on a character that is not a hexadecimal digit. *)
Fixpoint hexDecode (s : string) : option string :=
  match s with
  | EmptyString => Some EmptyString
  | String _ EmptyString => None
  | String hi (String lo rest) =>
      match hexDigit hi, hexDigit lo, hexDecode rest with
      | Some h, Some l, Some d => Some (String (ascii_of_N (16 * h + l)) d)
      | _, _, _ => None
      end
  end.

(** [bson.IsObjectIdHex]: exactly 24 characters that decode as hex. *)
Definition IsObjectIdHex (s : string) : bool :=
  if negb (Nat.eqb (String.length s) 24) then false
  else match hexDecode s with Some _ => true | None => false end.

(** [bson.ObjectIdHex].  The source panics on a malformed string; every
    caller in the client tests [IsObjectIdHex] first, and the model
    yields the zero identifier where the source would panic. *)
Definition ObjectIdHex (s : string) : ObjectId :=
  match hexDecode s with
  | Some d => if Nat.eqb (String.length d) 12 then d else EmptyString
  | None => EmptyString
  end.

(** Big-endian bytes of [n], [k] of them. *)
Fixpoint bytesBE (k : nat) (n : N) : string :=
  match k with
  | O => EmptyString
  | S k' => bytesBE k' (n / 256) ++ String (ascii_of_N (n mod 256)) EmptyString
  end.

(** [bson.NewObjectId] draws twelve bytes that the process has not handed
    out before.  The generator is modelled by a counter; the identifier
    is the counter's value laid out on twelve bytes. *)
Definition objectIdOfCounter (n : N) : ObjectId := bytesBE 12 n.

End Bson.

Import Bson.

(* ===================================================================== *)
(** ** models: the three entities *)
(* ===================================================================== *)

(** Modelled from the spec: package [core/domain/models] is not among the
    sources; the records below carry the attributes that section 3 of the
    specification lists for each entity, under the field names the client
    code uses.  Timestamps are [int64] milliseconds since the epoch. *)
Module Reading.
Record t : Type := mk
  { Id : ObjectId;
    Created : Z;
    Modified : Z;
    Device : string;
    Name : string;
    Value : string }.

Definition setId (x : ObjectId) (r : t) : t :=
  mk x (Created r) (Modified r) (Device r) (Name r) (Value r).
Definition setCreated (x : Z) (r : t) : t :=
  mk (Id r) x (Modified r) (Device r) (Name r) (Value r).
Definition setModified (x : Z) (r : t) : t :=
  mk (Id r) (Created r) x (Device r) (Name r) (Value r).
Definition setDevice (x : string) (r : t) : t :=
  mk (Id r) (Created r) (Modified r) x (Name r) (Value r).
End Reading.

Module Event.
Record t : Type := mk
  { ID : ObjectId;
    Pushed : Z;
    Device : string;
    Created : Z;
    Modified : Z;
    Readings : list Reading.t }.

Definition setID (x : ObjectId) (e : t) : t :=
  mk x (Pushed e) (Device e) (Created e) (Modified e) (Readings e).
Definition setCreated (x : Z) (e : t) : t :=
  mk (ID e) (Pushed e) (Device e) x (Modified e) (Readings e).
Definition setModified (x : Z) (e : t) : t :=
  mk (ID e) (Pushed e) (Device e) (Created e) x (Readings e).
Definition setReadings (x : list Reading.t) (e : t) : t :=
  mk (ID e) (Pushed e) (Device e) (Created e) (Modified e) x.

(** [models.Event{}] *)
Definition zero : t := mk EmptyString 0 EmptyString 0 0 [].
End Event.

Module ValueDescriptor.
Record t : Type := mk
  { Id : ObjectId;
    Created : Z;
    Modified : Z;
    Name : string;
    UomLabel : string;
    Labels : list string;
    Type_ : string }.

Definition setId (x : ObjectId) (v : t) : t :=
  mk x (Created v) (Modified v) (Name v) (UomLabel v) (Labels v) (Type_ v).
Definition setCreated (x : Z) (v : t) : t :=
  mk (Id v) x (Modified v) (Name v) (UomLabel v) (Labels v) (Type_ v).
Definition setModified (x : Z) (v : t) : t :=
  mk (Id v) (Created v) x (Name v) (UomLabel v) (Labels v) (Type_ v).

(** [models.ValueDescriptor{}] *)
Definition zero : t := mk EmptyString 0 0 EmptyString EmptyString [] EmptyString.
End ValueDescriptor.

(** Modelled from the spec: the wrapper [MongoEvent] (the custom BSON
    marshalling of an event) is not among the sources.  Following section 3
    of the specification, an event document keeps its readings as
    references into the readings collection, and loading an event
    de-references them. *)
Module MongoEvent.
Record doc : Type := mkDoc
  { ID : ObjectId;
    Pushed : Z;
    Device : string;
    Created : Z;
    Modified : Z;
    Readings : list ObjectId }.

(** What [Insert(me)] and [UpdateId(me.ID, me)] write for
    [me := MongoEvent{Event: e}]. *)
Definition ofEvent (e : Event.t) : doc :=
  mkDoc (Event.ID e) (Event.Pushed e) (Event.Device e) (Event.Created e)
        (Event.Modified e) (map Reading.Id (Event.Readings e)).
End MongoEvent.

(* ===================================================================== *)
(** ** Errors *)
(* ===================================================================== *)

(** Go's [error] values that the client can return: the three sentinels of
    the [clients] package, mgo's own [ErrNotFound], and any other failure
    of the driver, passed through with its message.  A result of type
    [option error] is Go's [error], with [None] for [nil]. *)
Inductive error : Type :=
| ErrNotFound
| ErrInvalidObjectId
| ErrNotUnique
| mgoErrNotFound
| driverError (msg : string).

Definition error_eqb (a b : error) : bool :=
  match a, b with
  | ErrNotFound, ErrNotFound => true
  | ErrInvalidObjectId, ErrInvalidObjectId => true
  | ErrNotUnique, ErrNotUnique => true
  | mgoErrNotFound, mgoErrNotFound => true
  | driverError m, driverError m' => String.eqb m m'
  | _, _ => false
  end.

(* ===================================================================== *)
(** ** The document store behind the mgo driver *)
(* ===================================================================== *)

Module Mgo.

Inductive collection : Type :=
| EVENTS_COLLECTION
| READINGS_COLLECTION
| VALUE_DESCRIPTOR_COLLECTION.

(** Field values that the client's queries inspect. *)
Inductive value : Type :=
| VString (s : string)
| VInt64 (z : Z)
| VObjectId (o : ObjectId)
| VStrings (l : list string).

(** One condition on a field: a plain value (equality; on an array
    field, membership) or one of the operators [$gte], [$lte], [$lt],
    [$gt], [$in]. *)
Inductive cond : Type :=
| Is (v : value)
| Gte (z : Z)
| Lte (z : Z)
| Lt (z : Z)
| Gt (z : Z)
| In (l : list string).

(** [bson.M] as the client builds it: field name to conditions.  [nil]
    and [bson.M{}] are both the empty list, which selects everything. *)
Definition M : Type := list (string * list cond).

Definition holds (c : cond) (v : value) : bool :=
  match c, v with
  | Is (VString s), VString s' => String.eqb s s'
  | Is (VString s), VStrings l => existsb (String.eqb s) l
  | Is (VInt64 a), VInt64 b => Z.eqb a b
  | Is (VObjectId a), VObjectId b => ObjectId_eqb a b
  | Gte z, VInt64 x => Z.leb z x
  | Lte z, VInt64 x => Z.leb x z
  | Lt z, VInt64 x => Z.ltb x z
  | Gt z, VInt64 x => Z.ltb z x
  | In l, VString s => existsb (String.eqb s) l
  | _, _ => false
  end.

(** The calls that the client makes on the driver. *)
Inductive call : Type :=
| CInsert (c : collection) (n : nat)
| CUpdateId (c : collection) (id : ObjectId)
| CUpsert (c : collection)
| CFind (c : collection) (q : M)
| CCount (c : collection)
| CRemoveId (c : collection) (id : ObjectId)
| CRemoveAll (c : collection).

(** The database and its environment.  [counter] feeds the identifier
    generator.  [pending] holds the outcome of the next driver calls:
    [None] lets the call through, [Some msg] makes it fail with that
    message and no effect; an exhausted schedule lets every call
    through.  [trace] records the calls issued, oldest first. *)
Record Database : Type := mkDatabase
  { events : list MongoEvent.doc;
    readings : list Reading.t;
    valueDescriptors : list ValueDescriptor.t;
    counter : N;
    pending : list (option string);
    trace : list call }.

Definition setEvents (x : list MongoEvent.doc) (db : Database) : Database :=
  mkDatabase x (readings db) (valueDescriptors db) (counter db) (pending db) (trace db).
Definition setReadings (x : list Reading.t) (db : Database) : Database :=
  mkDatabase (events db) x (valueDescriptors db) (counter db) (pending db) (trace db).
Definition setValueDescriptors (x : list ValueDescriptor.t) (db : Database) : Database :=
  mkDatabase (events db) (readings db) x (counter db) (pending db) (trace db).
Definition setCounter (x : N) (db : Database) : Database :=
  mkDatabase (events db) (readings db) (valueDescriptors db) x (pending db) (trace db).

(** *** State passing *)

Definition Op (A : Type) : Type := Database -> A * Database.

Definition ret {A : Type} (a : A) : Op A := fun db => (a, db).

Definition bind {A B : Type} (m : Op A) (k : A -> Op B) : Op B :=
  fun db => let (a, db') := m db in k a db'.

Definition modify (f : Database -> Database) : Op unit :=
  fun db => (tt, f db).

Definition gets {A : Type} (f : Database -> A) : Op A :=
  fun db => (f db, db).

(** One round trip: the call is recorded and its outcome is read off the
    schedule. *)
Definition issue (c : call) : Op (option error) :=
  fun db =>
    match pending db with
    | [] =>
        (None,
         mkDatabase (events db) (readings db) (valueDescriptors db)
                    (counter db) [] (trace db ++ [c])%list)
    | o :: rest =>
        (option_map driverError o,
         mkDatabase (events db) (readings db) (valueDescriptors db)
                    (counter db) rest (trace db ++ [c])%list)
    end.

(** [bson.NewObjectId()] *)
Definition NewObjectId : Op ObjectId :=
  fun db => (objectIdOfCounter (counter db), setCounter (N.succ (counter db)) db).

End Mgo.

Import Mgo.

Declare Scope op_scope.
Delimit Scope op_scope with op.
Notation "x <- m ;; k" := (bind m (fun x => k))
  (at level 61, m at next level, right associativity) : op_scope.
Notation "m ;;; k" := (bind m (fun _ => k))
  (at level 61, right associativity) : op_scope.
Local Open Scope op_scope.


(* ===================================================================== *)
(** ** Driver operations on one collection *)
(* ===================================================================== *)

(** A handle on one of the three collections: how to reach its documents
    in the database, and how a document shows its [_id] and its fields to
    a query. *)
Record Collection (D : Type) : Type := mkCollection
  { cname : collection;
    docs : Database -> list D;
    store : list D -> Database -> Database;
    oid : D -> ObjectId;
    withOid : ObjectId -> D -> D;
    field : D -> string -> option value }.

Arguments cname {D} _.
Arguments docs {D} _ _.
Arguments store {D} _ _ _.
Arguments oid {D} _ _.
Arguments withOid {D} _ _ _.
Arguments field {D} _ _ _.

Section Driver.

Context {D : Type} (C : Collection D).

(** Does document [d] satisfy query [q]?  Every listed field must be
    present and meet all its conditions. *)
Definition selects (q : M) (d : D) : bool :=
  forallb (fun kc : string * list cond =>
             match field C d (fst kc) with
             | Some v => forallb (fun c => holds c v) (snd kc)
             | None => false
             end) q.

Definition byId (id : ObjectId) (d : D) : bool := ObjectId_eqb (oid C d) id.

(** [Collection.Insert(docs...)]: the documents are appended. *)
Definition Insert (ds : list D) : Op (option error) :=
  err <- issue (CInsert (cname C) (List.length ds)) ;;
  match err with
  | Some _ => ret err
  | None => modify (fun db => store C (docs C db ++ ds)%list db) ;;; ret None
  end.

(** Replace the first document that [p] selects. *)
Fixpoint replaceFirst (p : D -> bool) (d : D) (l : list D) : option (list D) :=
  match l with
  | [] => None
  | x :: xs =>
      if p x then Some (d :: xs)
      else match replaceFirst p d xs with
           | Some xs' => Some (x :: xs')
           | None => None
           end
  end.

(** Remove the first document that [p] selects. *)
Fixpoint removeFirst (p : D -> bool) (l : list D) : option (list D) :=
  match l with
  | [] => None
  | x :: xs =>
      if p x then Some xs
      else match removeFirst p xs with
           | Some xs' => Some (x :: xs')
           | None => None
           end
  end.

(** [Collection.UpdateId(id, doc)]: the document whose [_id] is [id] is
    replaced by [doc]; [mgo.ErrNotFound] when there is none. *)
Definition UpdateId (id : ObjectId) (d : D) : Op (option error) :=
  err <- issue (CUpdateId (cname C) id) ;;
  match err with
  | Some _ => ret err
  | None =>
      l <- gets (docs C) ;;
      match replaceFirst (byId id) d l with
      | Some l' => modify (store C l') ;;; ret None
      | None => ret (Some mgoErrNotFound)
      end
  end.

(** [Collection.RemoveId(id)] *)
Definition RemoveId (id : ObjectId) : Op (option error) :=
  err <- issue (CRemoveId (cname C) id) ;;
  match err with
  | Some _ => ret err
  | None =>
      l <- gets (docs C) ;;
      match removeFirst (byId id) l with
      | Some l' => modify (store C l') ;;; ret None
      | None => ret (Some mgoErrNotFound)
      end
  end.

(** [Collection.RemoveAll(nil)] *)
Definition RemoveAll : Op (option error) :=
  err <- issue (CRemoveAll (cname C)) ;;
  match err with
  | Some _ => ret err
  | None => modify (store C []) ;;; ret None
  end.

(** What an upsert finds in the collection. *)
Inductive upsertOutcome : Type :=
| Matched (l : list D)
| IdAltered
| Absent.

(** The first document that the selector matches takes the content of
    [d] and keeps its own [_id]; the server refuses a replacement that
    carries another [_id]. *)
Fixpoint upsertInto (q : M) (d : D) (l : list D) : upsertOutcome :=
  match l with
  | [] => Absent
  | x :: xs =>
      if selects q x then
        if ObjectId_eqb (oid C d) EmptyString || ObjectId_eqb (oid C d) (oid C x)
        then Matched (withOid C (oid C x) d :: xs)
        else IdAltered
      else match upsertInto q d xs with
           | Matched xs' => Matched (x :: xs')
           | IdAltered => IdAltered
           | Absent => Absent
           end
  end.

(** [Collection.Upsert(selector, update)] with a whole document as the
    update: mgo "finds a single document matching the provided selector
    document and modifies it according to the update document; if no
    document matching the selector is found, the update document is
    applied to the selector document and the result is inserted in the
    collection".  The first component of the result is
    [ChangeInfo.UpsertedId], [None] for [nil]: it is set only when a
    document was inserted. *)
Definition Upsert (q : M) (d : D) : Op (option ObjectId * option error) :=
  err <- issue (CUpsert (cname C)) ;;
  match err with
  | Some _ => ret (None, err)
  | None =>
      l <- gets (docs C) ;;
      match upsertInto q d l with
      | Matched l' => modify (store C l') ;;; ret (None, None)
      | IdAltered =>
          ret (None, Some (driverError "the (immutable) field '_id' was found to have been altered"))
      | Absent =>
          id <- (if ObjectId_eqb (oid C d) EmptyString then NewObjectId else ret (oid C d)) ;;
          modify (fun db => store C (docs C db ++ [withOid C id d])%list db) ;;;
          ret (Some id, None)
      end
  end.

(** [Query.Limit(n)]: at most [|n|] documents are retrieved (a negative
    [n] asks the server for a single batch of [-n]); [0] lifts the cap. *)
Definition Limit (n : Z) (l : list D) : list D :=
  if Z.eqb n 0 then l else firstn (Z.abs_nat n) l.

(** [Find(q).All(&result)] and [Find(q).Limit(n).All(&result)], before
    the documents are decoded. *)
Definition FindAll (q : M) (limit : option Z) : Op (list D * option error) :=
  err <- issue (CFind (cname C) q) ;;
  match err with
  | Some _ => ret ([], err)
  | None =>
      l <- gets (docs C) ;;
      ret (match limit with
           | Some n => Limit n (filter (selects q) l)
           | None => filter (selects q) l
           end, None)
  end.

(** [Find(q).One(&result)]: the first match, [mgo.ErrNotFound] when
    nothing matches. *)
Definition FindOne (q : M) : Op (option D * option error) :=
  err <- issue (CFind (cname C) q) ;;
  match err with
  | Some _ => ret (None, err)
  | None =>
      l <- gets (docs C) ;;
      match filter (selects q) l with
      | d :: _ => ret (Some d, None)
      | [] => ret (None, Some mgoErrNotFound)
      end
  end.

(** [Find(q).Count()] *)
Definition Count (q : M) : Op (Z * option error) :=
  err <- issue (CCount (cname C)) ;;
  match err with
  | Some _ => ret (0%Z, err)
  | None =>
      l <- gets (docs C) ;;
      ret (Z.of_nat (List.length (filter (selects q) l)), None)
  end.

End Driver.

(* ===================================================================== *)
(** ** The three collections *)
(* ===================================================================== *)

Definition eventsC : Collection MongoEvent.doc :=
  mkCollection _ EVENTS_COLLECTION events setEvents MongoEvent.ID
    (fun id d =>
       MongoEvent.mkDoc id (MongoEvent.Pushed d) (MongoEvent.Device d)
         (MongoEvent.Created d) (MongoEvent.Modified d) (MongoEvent.Readings d))
    (fun d k =>
       if String.eqb k "_id" then Some (VObjectId (MongoEvent.ID d))
       else if String.eqb k "pushed" then Some (VInt64 (MongoEvent.Pushed d))
       else if String.eqb k "device" then Some (VString (MongoEvent.Device d))
       else if String.eqb k "created" then Some (VInt64 (MongoEvent.Created d))
       else if String.eqb k "modified" then Some (VInt64 (MongoEvent.Modified d))
       else None).

Definition readingsC : Collection Reading.t :=
  mkCollection _ READINGS_COLLECTION readings setReadings Reading.Id Reading.setId
    (fun r k =>
       if String.eqb k "_id" then Some (VObjectId (Reading.Id r))
       else if String.eqb k "created" then Some (VInt64 (Reading.Created r))
       else if String.eqb k "modified" then Some (VInt64 (Reading.Modified r))
       else if String.eqb k "device" then Some (VString (Reading.Device r))
       else if String.eqb k "name" then Some (VString (Reading.Name r))
       else if String.eqb k "value" then Some (VString (Reading.Value r))
       else None).

Definition valueDescriptorsC : Collection ValueDescriptor.t :=
  mkCollection _ VALUE_DESCRIPTOR_COLLECTION valueDescriptors setValueDescriptors
    ValueDescriptor.Id ValueDescriptor.setId
    (fun v k =>
       if String.eqb k "_id" then Some (VObjectId (ValueDescriptor.Id v))
       else if String.eqb k "created" then Some (VInt64 (ValueDescriptor.Created v))
       else if String.eqb k "modified" then Some (VInt64 (ValueDescriptor.Modified v))
       else if String.eqb k "name" then Some (VString (ValueDescriptor.Name v))
       else if String.eqb k "uomLabel" then Some (VString (ValueDescriptor.UomLabel v))
       else if String.eqb k "labels" then Some (VStrings (ValueDescriptor.Labels v))
       else if String.eqb k "type" then Some (VString (ValueDescriptor.Type_ v))
       else None).

(** Modelled from the spec: loading an event ([MongoEvent]'s decoding,
    not among the sources) looks every reference up in the readings
    collection, in order; a reference that resolves to nothing makes the
    load fail. *)
Fixpoint dereference (rs : list Reading.t) (refs : list ObjectId) : option (list Reading.t) :=
  match refs with
  | [] => Some []
  | id :: refs' =>
      match find (byId readingsC id) rs, dereference rs refs' with
      | Some r, Some l => Some (r :: l)
      | _, _ => None
      end
  end.

Definition loadEvent (rs : list Reading.t) (d : MongoEvent.doc) : option Event.t :=
  match dereference rs (MongoEvent.Readings d) with
  | Some l =>
      Some (Event.mk (MongoEvent.ID d) (MongoEvent.Pushed d) (MongoEvent.Device d)
              (MongoEvent.Created d) (MongoEvent.Modified d) l)
  | None => None
  end.

Fixpoint loadEvents (rs : list Reading.t) (ds : list MongoEvent.doc) : option (list Event.t) :=
  match ds with
  | [] => Some []
  | d :: ds' =>
      match loadEvent rs d, loadEvents rs ds' with
      | Some e, Some es => Some (e :: es)
      | _, _ => None
      end
  end.

(* ===================================================================== *)
(** ** The client *)
(* ===================================================================== *)

(** [int64] wrap-around. *)
Definition int64 (z : Z) : Z := ((z + 2 ^ 63) mod 2 ^ 64 - 2 ^ 63)%Z.

(** [time.Now().UnixNano() / int64(time.Millisecond)], for the clock
    reading [unixNano]. *)
Definition nowMillis (unixNano : Z) : Z := Z.quot unixNano 1000000.

(** [if err == mgo.ErrNotFound { return ErrNotFound }; return err] *)
Definition orNotFound (err : option error) : option error :=
  match err with
  | Some mgoErrNotFound => Some ErrNotFound
  | _ => err
  end.

(** *** Events *)

Definition getEvents (q : M) : Op (list Event.t * option error) :=
  r <- FindAll eventsC q None ;;
  match snd r with
  | Some _ => ret ([], snd r)
  | None =>
      rs <- gets readings ;;
      match loadEvents rs (fst r) with
      | Some es => ret (es, None)
      | None => ret ([], Some mgoErrNotFound)
      end
  end.

Definition getEventsLimit (q : M) (limit : Z) : Op (list Event.t * option error) :=
  if Z.eqb limit 0 then ret ([], None)
  else
    r <- FindAll eventsC q (Some limit) ;;
    match snd r with
    | Some _ => ret ([], snd r)
    | None =>
        rs <- gets readings ;;
        match loadEvents rs (fst r) with
        | Some es => ret (es, None)
        | None => ret ([], Some mgoErrNotFound)
        end
    end.

Definition getEvent (q : M) : Op (Event.t * option error) :=
  r <- FindOne eventsC q ;;
  rs <- gets readings ;;
  match r with
  | (Some d, None) =>
      match loadEvent rs d with
      | Some e => ret (e, None)
      | None => ret (Event.zero, Some ErrNotFound)
      end
  | (_, err) => ret (Event.zero, orNotFound err)
  end.

Definition Events : Op (list Event.t * option error) := getEvents [].

(** The loop of [AddEvent] over [e.Readings]: every reading gets a new
    identifier, the event's creation time and the event's device. *)
Fixpoint stampReadings (created : Z) (device : string) (rs : list Reading.t)
  : Op (list Reading.t) :=
  match rs with
  | [] => ret []
  | r :: rs' =>
      id <- NewObjectId ;;
      rest <- stampReadings created device rs' ;;
      ret (Reading.setDevice device (Reading.setCreated created (Reading.setId id r)) :: rest)
  end.

(** [AddEvent(e *models.Event)].  The event is passed by pointer: the
    first component of the result is the event as the caller sees it
    afterwards. *)
Definition AddEvent (unixNano : Z) (e : Event.t) : Op (Event.t * ObjectId * option error) :=
  let e := Event.setCreated (nowMillis unixNano) e in
  id <- NewObjectId ;;
  let e := Event.setID id e in
  let addTheEvent (e : Event.t) : Op (Event.t * ObjectId * option error) :=
    err <- Insert eventsC [MongoEvent.ofEvent e] ;;
    ret (e, Event.ID e, err) in
  if negb (Nat.eqb (List.length (Event.Readings e)) 0) then
    ui <- stampReadings (Event.Created e) (Event.Device e) (Event.Readings e) ;;
    let e := Event.setReadings ui e in
    err <- Insert readingsC ui ;;
    match err with
    | Some _ => ret (e, Event.ID e, err)
    | None => addTheEvent e
    end
  else addTheEvent e.

Definition UpdateEvent (unixNano : Z) (e : Event.t) : Op (option error) :=
  let e := Event.setModified (nowMillis unixNano) e in
  err <- UpdateId eventsC (Event.ID e) (MongoEvent.ofEvent e) ;;
  ret (orNotFound err).

Definition EventById (id : string) : Op (Event.t * option error) :=
  if negb (IsObjectIdHex id) then ret (Event.zero, Some ErrInvalidObjectId)
  else getEvent [("_id", [Is (VObjectId (ObjectIdHex id))])].

Definition EventCount : Op (Z * option error) := Count eventsC [].

Definition EventCountByDeviceId (id : string) : Op (Z * option error) :=
  Count eventsC [("device", [Is (VString id)])].

(** [deleteById(id, col)] *)
Definition deleteById {D : Type} (id : string) (col : Collection D) : Op (option error) :=
  if negb (IsObjectIdHex id) then ret (Some ErrInvalidObjectId)
  else
    err <- RemoveId col (ObjectIdHex id) ;;
    ret (orNotFound err).

Definition DeleteEventById (id : string) : Op (option error) := deleteById id eventsC.

Definition EventsForDeviceLimit (id : string) (limit : Z) : Op (list Event.t * option error) :=
  getEventsLimit [("device", [Is (VString id)])] limit.

Definition EventsForDevice (id : string) : Op (list Event.t * option error) :=
  getEvents [("device", [Is (VString id)])].

Definition EventsByCreationTime (startTime endTime : Z) (limit : Z)
  : Op (list Event.t * option error) :=
  getEventsLimit [("created", [Gte startTime; Lte endTime])] limit.

Definition EventsOlderThanAge (unixNano : Z) (age : Z) : Op (list Event.t * option error) :=
  let expireDate := int64 (nowMillis unixNano - age) in
  getEvents [("created", [Lt expireDate])].

Definition EventsPushed : Op (list Event.t * option error) :=
  getEvents [("pushed", [Gt 0%Z])].

Definition ScrubAllEvents : Op (option error) :=
  err <- RemoveAll readingsC ;;
  match err with
  | Some _ => ret err
  | None => RemoveAll eventsC
  end.

(** *** Readings *)

Definition getReadings (q : M) : Op (list Reading.t * option error) :=
  FindAll readingsC q None.

Definition getReadingsLimit (q : M) (limit : Z) : Op (list Reading.t * option error) :=
  if Z.eqb limit 0 then ret ([], None)
  else FindAll readingsC q (Some limit).

Definition getReading (q : M) : Op (Reading.t * option error) :=
  r <- FindOne readingsC q ;;
  match r with
  | (Some d, None) => ret (d, None)
  | (_, err) => ret (Reading.mk EmptyString 0 0 EmptyString EmptyString EmptyString, orNotFound err)
  end.

Definition Readings : Op (list Reading.t * option error) := getReadings [].

Definition AddReading (unixNano : Z) (r : Reading.t) : Op (ObjectId * option error) :=
  id <- NewObjectId ;;
  let r := Reading.setId id r in
  let r := Reading.setCreated (nowMillis unixNano) r in
  err <- Insert readingsC [r] ;;
  ret (Reading.Id r, err).

Definition UpdateReading (unixNano : Z) (r : Reading.t) : Op (option error) :=
  let r := Reading.setModified (nowMillis unixNano) r in
  err <- UpdateId readingsC (Reading.Id r) r ;;
  ret (orNotFound err).

Definition ReadingById (id : string) : Op (Reading.t * option error) :=
  if negb (IsObjectIdHex id)
  then ret (Reading.mk EmptyString 0 0 EmptyString EmptyString EmptyString, Some ErrInvalidObjectId)
  else getReading [("_id", [Is (VObjectId (ObjectIdHex id))])].

Definition ReadingCount : Op (Z * option error) := Count readingsC [].

Definition DeleteReadingById (id : string) : Op (option error) :=
  if negb (IsObjectIdHex id) then ret (Some ErrInvalidObjectId)
  else deleteById id readingsC.

Definition ReadingsByDevice (id : string) (limit : Z) : Op (list Reading.t * option error) :=
  getReadingsLimit [("device", [Is (VString id)])] limit.

Definition ReadingsByValueDescriptor (name : string) (limit : Z)
  : Op (list Reading.t * option error) :=
  getReadingsLimit [("name", [Is (VString name)])] limit.

Definition ReadingsByValueDescriptorNames (names : list string) (limit : Z)
  : Op (list Reading.t * option error) :=
  getReadingsLimit [("name", [In names])] limit.

Definition ReadingsByCreationTime (start end_ : Z) (limit : Z)
  : Op (list Reading.t * option error) :=
  getReadingsLimit [("created", [Gte start; Lte end_])] limit.

Definition ReadingsByDeviceAndValueDescriptor (deviceId valueDescriptor : string) (limit : Z)
  : Op (list Reading.t * option error) :=
  getReadingsLimit [("device", [Is (VString deviceId)]); ("name", [Is (VString valueDescriptor)])]
                   limit.

(** *** Value descriptors *)

Definition getValueDescriptors (q : M) : Op (list ValueDescriptor.t * option error) :=
  FindAll valueDescriptorsC q None.

Definition getValueDescriptor (q : M) : Op (ValueDescriptor.t * option error) :=
  r <- FindOne valueDescriptorsC q ;;
  match r with
  | (Some d, None) => ret (d, None)
  | (_, err) => ret (ValueDescriptor.zero, orNotFound err)
  end.

Definition AddValueDescriptor (unixNano : Z) (v : ValueDescriptor.t)
  : Op (ObjectId * option error) :=
  let v := ValueDescriptor.setCreated (nowMillis unixNano) v in
  r <- Upsert valueDescriptorsC [("name", [Is (VString (ValueDescriptor.Name v))])] v ;;
  match r with
  | (_, Some err) => ret (ValueDescriptor.Id v, Some err)
  | (None, None) => ret (ValueDescriptor.Id v, Some ErrNotUnique)
  | (Some upsertedId, None) => ret (upsertedId, None)
  end.

Definition ValueDescriptors : Op (list ValueDescriptor.t * option error) :=
  getValueDescriptors [].

Definition UpdateValueDescriptor (unixNano : Z) (v : ValueDescriptor.t) : Op (option error) :=
  r <- getValueDescriptor [("name", [Is (VString (ValueDescriptor.Name v))])] ;;
  let update : Op (option error) :=
    let v := ValueDescriptor.setModified (nowMillis unixNano) v in
    err <- UpdateId valueDescriptorsC (ValueDescriptor.Id v) v ;;
    ret (orNotFound err) in
  match snd r with
  | Some ErrNotFound => update
  | Some err => ret (Some err)
  | None =>
      if negb (ObjectId_eqb (ValueDescriptor.Id (fst r)) (ValueDescriptor.Id v))
      then ret (Some ErrNotUnique)
      else update
  end.

Definition DeleteValueDescriptorById (id : string) : Op (option error) :=
  if negb (IsObjectIdHex id) then ret (Some ErrInvalidObjectId)
  else deleteById id valueDescriptorsC.

Definition ValueDescriptorByName (name : string) : Op (ValueDescriptor.t * option error) :=
  getValueDescriptor [("name", [Is (VString name)])].

(** The loop of [ValueDescriptorsByName], with the list built so far. *)
Fixpoint lookupEach (names : list string) (vList : list ValueDescriptor.t)
  : Op (list ValueDescriptor.t * option error) :=
  match names with
  | [] => ret (vList, None)
  | name :: rest =>
      r <- ValueDescriptorByName name ;;
      match snd r with
      | Some err =>
          if negb (error_eqb err ErrNotFound) then ret ([], Some err)
          else lookupEach rest vList
      | None => lookupEach rest (vList ++ [fst r])%list
      end
  end.

Definition ValueDescriptorsByName (names : list string)
  : Op (list ValueDescriptor.t * option error) :=
  lookupEach names [].

Definition ValueDescriptorById (id : string) : Op (ValueDescriptor.t * option error) :=
  if negb (IsObjectIdHex id) then ret (ValueDescriptor.zero, Some ErrInvalidObjectId)
  else getValueDescriptor [("_id", [Is (VObjectId (ObjectIdHex id))])].

Definition ValueDescriptorsByUomLabel (uomLabel : string)
  : Op (list ValueDescriptor.t * option error) :=
  getValueDescriptors [("uomLabel", [Is (VString uomLabel)])].

Definition ValueDescriptorsByLabel (label : string)
  : Op (list ValueDescriptor.t * option error) :=
  getValueDescriptors [("labels", [Is (VString label)])].

Definition ValueDescriptorsByType (t : string) : Op (list ValueDescriptor.t * option error) :=
  getValueDescriptors [("type", [Is (VString t)])].

Definition ScrubAllValueDescriptors : Op (option error) := RemoveAll valueDescriptorsC.

(* ===================================================================== *)
(** ** Concrete runs *)
(* ===================================================================== *)

Definition emptyDatabase : Database := mkDatabase [] [] [] 0 [] [].

Definition temp72 : Reading.t := Reading.mk EmptyString 0 0 EmptyString "temp" "72".

Definition eventD1 : Event.t := Event.mk EmptyString 0 "d1" 0 0 [temp72].

Definition vdTemp : ValueDescriptor.t :=
  ValueDescriptor.mk EmptyString 0 0 "temp" "C" [] "I".

(** A reading whose identifier was never assigned: [Id] is the zero
    value. *)
Definition strayReading : Reading.t := Reading.mk EmptyString 0 0 "d1" "temp" "72".

(* ===================================================================== *)
(** ** Vocabulary of the contract *)
(* ===================================================================== *)

(** [bson.ObjectId.Valid]: twelve bytes. *)
Definition Valid (id : ObjectId) : bool := Nat.eqb (String.length id) 12.

(** The driver lets the next [n] calls through. *)
Definition quiet (n : nat) (db : Database) : bool :=
  forallb (fun o : option string => match o with None => true | Some _ => false end)
          (firstn n (pending db)).

(** The three collections hold the same documents. *)
Definition sameData (db db' : Database) : Prop :=
  events db' = events db /\
  readings db' = readings db /\
  valueDescriptors db' = valueDescriptors db.

(** The identifiers [NewObjectId] hands out from counter value [n] on. *)
Definition drawn (n : N) (k : nat) : list ObjectId :=
  map (fun i => objectIdOfCounter (n + N.of_nat i)) (seq 0 k).

(** The readings of an event after the loop of [AddEvent], when the
    generator stands at [n]. *)
Fixpoint stamped (created : Z) (device : string) (n : N) (rs : list Reading.t)
  : list Reading.t :=
  match rs with
  | [] => []
  | r :: rs' =>
      Reading.setDevice device (Reading.setCreated created (Reading.setId (objectIdOfCounter n) r))
      :: stamped created device (N.succ n) rs'
  end.

(** The number that a byte string denotes, big end first, on top of
    [acc]. *)
Fixpoint valueBE (acc : N) (s : string) : N :=
  match s with
  | EmptyString => acc
  | String c s' => valueBE (acc * 256 + N_of_ascii c) s'
  end.

(** The event as its caller sees it after [AddEvent], for the clock
    reading [now] (in milliseconds) and the generator standing at [n]. *)
Definition added (now : Z) (n : N) (e : Event.t) : Event.t :=
  Event.mk (objectIdOfCounter n) (Event.Pushed e) (Event.Device e) now (Event.Modified e)
           (stamped now (Event.Device e) (N.succ n) (Event.Readings e)).

(** The database once call [c] has gone out and the schedule has moved
    on. *)
Definition afterCall (c : call) (db : Database) : Database :=
  mkDatabase (events db) (readings db) (valueDescriptors db) (counter db)
             (tl (pending db)) (trace db ++ [c])%list.

(** The outcome the schedule holds for the next call. *)
Definition nextOutcome (db : Database) : option error :=
  match pending db with
  | Some msg :: _ => Some (driverError msg)
  | _ => None
  end.

(** A limited listing against its unlimited sibling, both run on the same
    database: the limited result is never longer than [|limit|], and
    whenever the unlimited listing succeeds the limited one succeeds too,
    returns the first [|limit|] documents of the unlimited result, and
    leaves the same database behind. *)
Definition truncates {A : Type} (limit : Z)
  (limited unlimited : list A * option error * Database) : Prop :=
  List.length (fst (fst limited)) <= Z.abs_nat limit /\
  (snd (fst unlimited) = None ->
   snd (fst limited) = None /\
   fst (fst limited) = firstn (Z.abs_nat limit) (fst (fst unlimited)) /\
   snd limited = snd unlimited).

(** The query [bson.M{"name": name}]. *)
Definition byName (name : string) : M := [("name", [Is (VString name)])].

(** The stored descriptor that a lookup by name returns: the first one
    with that name, if any. *)
Definition named (vds : list ValueDescriptor.t) (name : string) : option ValueDescriptor.t :=
  find (fun v => String.eqb name (ValueDescriptor.Name v)) vds.

(** The descriptors that the names resolve to, in the order of the names,
    the names that resolve to nothing left out. *)
Definition resolved (vds : list ValueDescriptor.t) (names : list string)
  : list ValueDescriptor.t :=
  flat_map (fun name => match named vds name with Some v => [v] | None => [] end) names.

(** The database after one lookup by name for each of [names], in order:
    only the schedule and the trace have moved. *)
Definition afterLookups (names : list string) (db : Database) : Database :=
  mkDatabase (events db) (readings db) (valueDescriptors db) (counter db)
             (skipn (List.length names) (pending db))
             (trace db ++ map (fun name => CFind VALUE_DESCRIPTOR_COLLECTION (byName name)) names)%list.

(** Two clock readings one millisecond apart. *)
Definition clockA : Z := 1700000000123456789.
Definition clockB : Z := 1700000000124456789.

(** The database and the event after [eventD1] has been added to an empty
    store at [clockA]. *)
Definition dbAfterAdd : Database := snd (AddEvent clockA eventD1 emptyDatabase).
Definition eventAdded : Event.t := fst (fst (fst (AddEvent clockA eventD1 emptyDatabase))).

(** The same event as a caller would send it back to flag it as pushed,
    without its readings. *)
Definition eventPushed : Event.t :=
  Event.mk (Event.ID eventAdded) clockB (Event.Device eventAdded)
           (Event.Created eventAdded) (Event.Modified eventAdded) [].

(** A second descriptor named "temp", with another unit, labels and
    type. *)
Definition vdTempAgain : ValueDescriptor.t :=
  ValueDescriptor.mk EmptyString 0 0 "temp" "F" ["outdoor"] "F".

(** The store once [vdTemp] has been added at [clockA]. *)
Definition dbWithTemp : Database := snd (AddValueDescriptor clockA vdTemp emptyDatabase).

(** The query [bson.M{"_id": id}]. *)
Definition byObjectId (id : ObjectId) : M := [("_id", [Is (VObjectId id)])].

(** A store with the two readings of one event, for the limited
    listings. *)
Definition eventTwoReadings : Event.t :=
  Event.mk EmptyString 0 "d1" 0 0
    [temp72; Reading.mk EmptyString 0 0 EmptyString "humidity" "40"].
Definition dbTwoReadings : Database := snd (AddEvent clockA eventTwoReadings emptyDatabase).


(* ===================================================================== *)
(** ** The rest of the client *)
(* ===================================================================== *)

(** [getValueDescriptorsLimit]: unlike the limited listings of events and
    readings, the limit goes to the driver as it is, zero included. *)
Definition getValueDescriptorsLimit (q : M) (limit : Z)
  : Op (list ValueDescriptor.t * option error) :=
  FindAll valueDescriptorsC q (Some limit).

(** [type ByReadingCreationDate []models.Reading], the [sort.Interface]
    on readings.  Indices are positions in the slice; [None] stands for
    the panic of an index out of range. *)
Module ByReadingCreationDate.





End ByReadingCreationDate.

(** The connection: [DBConfiguration] as [newMongoClient] reads it, the
    [mgo.DialInfo] it builds, and the client it returns.  A session is
    identified by the dial information it was opened with. *)
Module Connection.

Record DBConfiguration : Type := mkDBConfiguration
  { Host : string;
    Port : Z;
    Timeout : Z;
    DatabaseName : string;
    Username : string;
    Password : string }.

Record DialInfo : Type := mkDialInfo
  { Addrs : list string;
    DialTimeout : Z;
    DialDatabase : string;
    DialUsername : string;
    DialPassword : string }.

Record MongoClient : Type := mkMongoClient
  { Session : DialInfo;
    Database : string }.

(** [strconv.Itoa] *)
Definition Itoa (n : Z) : string := NilZero.string_of_int (Z.to_int n).

(** [time.Duration(config.Timeout) * time.Millisecond], in nanoseconds. *)
Definition dialInfo (config : DBConfiguration) : DialInfo :=
  mkDialInfo [(Host config ++ ":" ++ Itoa (Port config))%string]
             (int64 (Timeout config * 1000000))
             (DatabaseName config) (Username config) (Password config).

(** [newMongoClient(config)].  [dial] is what [mgo.DialWithInfo] answers:
    [Some msg] when the server cannot be reached.  The state threaded
    through is the package variable [currentMongoClient]. *)
Definition newMongoClient (config : DBConfiguration) (dial : option string)
  (currentMongoClient : option MongoClient)
  : (option MongoClient * option string) * option MongoClient :=
  match dial with
  | Some err => ((None, Some err), currentMongoClient)
  | None =>
      let mongoClient := mkMongoClient (dialInfo config) (DatabaseName config) in
      ((Some mongoClient, None), Some mongoClient)
  end.

(** [getCurrentMongoClient()] *)
Definition getCurrentMongoClient (currentMongoClient : option MongoClient)
  : option MongoClient * option string :=
  match currentMongoClient with
  | None =>
      (None, Some "No current mongo client, please create a new client before requesting it")
  | Some mc => (Some mc, None)
  end.

(** A run of the process: one [newMongoClient] per element, each with
    the answer of its dial, starting from [current]. *)
Fixpoint connects (attempts : list (DBConfiguration * option string))
  (current : option MongoClient) : option MongoClient :=
  match attempts with
  | [] => current
  | (config, dial) :: rest => connects rest (snd (newMongoClient config dial current))
  end.

End Connection.

(** A limited listing returns the first [|limit|] of the documents that
    [keep] accepts, in the order of the store. *)
Definition firstMatching {A : Type} (keep : A -> bool) (limit : Z) (l : list A) : list A :=
  firstn (Z.abs_nat limit) (filter keep l).

(** What a delete by identifier does to its collection: nothing, with
    [ErrNotFound], when no document carries the identifier; otherwise the
    first document that carries it goes and the others stay in place. *)
Definition deletesFirst {D : Type} (idOf : D -> ObjectId) (id : ObjectId)
  (before after : list D) (err : option error) : Prop :=
  ((forall d, List.In d before -> idOf d <> id) ->
   err = Some ErrNotFound /\ after = before) /\
  ((exists d, List.In d before /\ idOf d = id) ->
   exists l1 d l2,
     before = (l1 ++ d :: l2)%list /\ idOf d = id /\
     (forall y, List.In y l1 -> idOf y <> id) /\
     after = (l1 ++ l2)%list /\ err = None).

(** The scalar attributes of a loaded event are those of its document. *)
Definition loadedFrom (d : MongoEvent.doc) (e : Event.t) : Prop :=
  Event.ID e = MongoEvent.ID d /\
  Event.Pushed e = MongoEvent.Pushed d /\
  Event.Device e = MongoEvent.Device d /\
  Event.Created e = MongoEvent.Created d /\
  Event.Modified e = MongoEvent.Modified d /\
  map Reading.Id (Event.Readings e) = MongoEvent.Readings d.

(** A connection configuration for the concrete runs. *)
Definition localConfig : Connection.DBConfiguration :=
  Connection.mkDBConfiguration "localhost" 27017 5000 "coredata" "core" "password".

(** An operation that writes nothing: whatever the database, the three
    collections and the identifier generator are the same afterwards. *)
Definition readOnly {A : Type} (op : Op A) : Prop :=
  forall db, sameData db (snd (op db)) /\ counter (snd (op db)) = counter db.

(** The hexadecimal digits, in either case. *)
Definition isHexDigit (c : ascii) : bool :=
  existsb (Ascii.eqb c) (list_ascii_of_string "0123456789abcdefABCDEF").


(* ===================================================================== *)
(** ** Reasoning about runs *)
(* ===================================================================== *)

Ltac run :=
  unfold bind, ret, modify, gets, issue, NewObjectId in *; simpl in *.

Ltac split_all := repeat match goal with |- _ /\ _ => split end.

Arguments objectIdOfCounter : simpl never.

(* --------------------------------------------------------------------- *)
(** *** Identifier validation *)
(* --------------------------------------------------------------------- *)

Lemma deleteById_invalid {D : Type} (col : Collection D) (id : string) (db : Database) :
  IsObjectIdHex id = false -> deleteById id col db = (Some ErrInvalidObjectId, db).
Proof. intros H. unfold deleteById. now rewrite H. Qed.

(* --------------------------------------------------------------------- *)
(** *** The identifier generator *)
(* --------------------------------------------------------------------- *)

Lemma valueBE_app (s1 s2 : string) : forall acc,
  valueBE acc (s1 ++ s2) = valueBE (valueBE acc s1) s2.
Proof. induction s1 as [|c s1 IH]; intros acc; simpl; [reflexivity|apply IH]. Qed.

Lemma valueBE_bytesBE (k : nat) : forall n,
  valueBE 0 (bytesBE k n) = (n mod 256 ^ N.of_nat k)%N.
Proof.
  induction k as [|k IH]; intros n.
  - simpl. now rewrite N.mod_1_r.
  - cbn [bytesBE]. rewrite valueBE_app, IH. cbn [valueBE].
    rewrite N_ascii_embedding by (apply N.mod_lt; discriminate).
    rewrite Nnat.Nat2N.inj_succ, N.pow_succ_r'.
    rewrite (N.Div0.mod_mul_r n 256 (256 ^ N.of_nat k)). lia.
Qed.

Lemma objectIdOfCounter_inj (a b : N) :
  (a < 2 ^ 96)%N -> (b < 2 ^ 96)%N ->
  objectIdOfCounter a = objectIdOfCounter b -> a = b.
Proof.
  intros Ha Hb H. unfold objectIdOfCounter in H.
  apply (f_equal (valueBE 0)) in H. rewrite !valueBE_bytesBE in H.
  change (256 ^ N.of_nat 12)%N with (2 ^ 96)%N in H.
  now rewrite !N.mod_small in H.
Qed.

Lemma drawn_S (n : N) (k : nat) :
  drawn n (S k) = objectIdOfCounter n :: drawn (N.succ n) k.
Proof.
  unfold drawn. cbn [seq map]. rewrite N.add_0_r. f_equal.
  rewrite <- seq_shift, map_map. apply map_ext. intros i. f_equal. lia.
Qed.

Lemma drawn_NoDup (k : nat) : forall n,
  (n + N.of_nat k <= 2 ^ 96)%N -> NoDup (drawn n k).
Proof.
  induction k as [|k IH]; intros n Hn.
  - constructor.
  - rewrite drawn_S. constructor.
    + unfold drawn. rewrite in_map_iff. intros [i [Hi Hin]].
      apply in_seq in Hin. apply objectIdOfCounter_inj in Hi; lia.
    + apply IH. lia.
Qed.

(* --------------------------------------------------------------------- *)
(** *** Adding an event *)
(* --------------------------------------------------------------------- *)

Lemma stampReadings_run (created : Z) (device : string) (rs : list Reading.t) :
  forall db,
    stampReadings created device rs db
    = (stamped created device (counter db) rs,
       setCounter (counter db + N.of_nat (List.length rs)) db).
Proof.
  induction rs as [|r rs IH]; intros db.
  - simpl. unfold ret, setCounter. rewrite N.add_0_r. now destruct db.
  - cbn [stampReadings stamped]. unfold bind at 1. unfold NewObjectId.
    unfold bind at 1. rewrite IH. unfold ret. simpl. f_equal.
    unfold setCounter; simpl. f_equal. lia.
Qed.

Lemma stamped_ids (created : Z) (device : string) (rs : list Reading.t) : forall n,
  map Reading.Id (stamped created device n rs) = drawn n (List.length rs).
Proof.
  induction rs as [|r rs IH]; intros n; [reflexivity|].
  cbn [stamped map List.length]. rewrite drawn_S, IH. reflexivity.
Qed.

Lemma stamped_length (created : Z) (device : string) (rs : list Reading.t) : forall n,
  List.length (stamped created device n rs) = List.length rs.
Proof. induction rs as [|r rs IH]; intros n; simpl; [reflexivity|now rewrite IH]. Qed.

Lemma stamped_Forall (created : Z) (device : string) (rs : list Reading.t) : forall n,
  Forall (fun r => Reading.Created r = created /\ Reading.Device r = device)
         (stamped created device n rs).
Proof.
  induction rs as [|r rs IH]; intros n; simpl; constructor; [now split|apply IH].
Qed.

Lemma stamped_payload (created : Z) (device : string) (rs : list Reading.t) : forall n,
  map Reading.Name (stamped created device n rs) = map Reading.Name rs /\
  map Reading.Value (stamped created device n rs) = map Reading.Value rs /\
  map Reading.Modified (stamped created device n rs) = map Reading.Modified rs.
Proof.
  induction rs as [|r rs IH]; intros n; simpl; [now repeat split|].
  destruct (IH (N.succ n)) as [H1 [H2 H3]]. now rewrite H1, H2, H3.
Qed.

Lemma issue_run (c : call) (db : Database) :
  issue c db = (nextOutcome db, afterCall c db).
Proof.
  unfold issue, nextOutcome, afterCall.
  destruct (pending db) as [|[msg|] rest]; reflexivity.
Qed.

Lemma Insert_run {D : Type} (C : Collection D) (ds : list D) (db : Database) :
  Insert C ds db
  = match nextOutcome db with
    | Some err => (Some err, afterCall (CInsert (cname C) (List.length ds)) db)
    | None =>
        (None,
         store C (docs C (afterCall (CInsert (cname C) (List.length ds)) db) ++ ds)%list
               (afterCall (CInsert (cname C) (List.length ds)) db))
    end.
Proof.
  unfold Insert, bind. rewrite issue_run.
  destruct (nextOutcome db); reflexivity.
Qed.

Lemma AddEvent_run (t : Z) (e : Event.t) (db : Database) :
  AddEvent t e db
  = let e' := added (nowMillis t) (counter db) e in
    let k := List.length (Event.Readings e) in
    let db1 := setCounter (N.succ (counter db) + N.of_nat k) db in
    match Event.Readings e with
    | [] =>
        let (err, db2) := Insert eventsC [MongoEvent.ofEvent e'] db1 in
        (e', Event.ID e', err, db2)
    | _ :: _ =>
        let (err, db2) := Insert readingsC (Event.Readings e') db1 in
        match err with
        | Some _ => (e', Event.ID e', err, db2)
        | None =>
            let (err', db3) := Insert eventsC [MongoEvent.ofEvent e'] db2 in
            (e', Event.ID e', err', db3)
        end
    end.
Proof.
  unfold AddEvent. unfold bind at 1. unfold NewObjectId.
  destruct e as [id0 pushed device created modified rs].
  destruct rs as [|r rs].
  - cbn -[Insert]. unfold bind, ret, added. cbn -[Insert].
    rewrite N.add_0_r.
    destruct (Insert eventsC _ _) as [err db2]. reflexivity.
  - cbn -[Insert stampReadings stamped List.length].
    change (negb (Nat.eqb (List.length (r :: rs)) 0)) with true. cbv iota.
    unfold bind at 1. rewrite stampReadings_run.
    cbn -[Insert stamped List.length].
    unfold bind at 1. unfold added.
    cbn -[Insert stamped List.length].
    destruct (Insert readingsC _ _) as [err db2].
    destruct err as [err|]; [reflexivity|].
    unfold bind, ret.
    destruct (Insert eventsC _ _) as [err' db3]. reflexivity.
Qed.

Lemma added_readings_length (now : Z) (n : N) (e : Event.t) :
  List.length (Event.Readings (added now n e)) = List.length (Event.Readings e).
Proof. apply stamped_length. Qed.

(** C3.  [AddEvent] gives the event the next identifier of the generator
    and the clock's reading in milliseconds, whatever the caller had put
    there; every reading gets the following identifiers in order, that
    same creation time and the event's device, its other fields kept; the
    identifiers drawn are pairwise distinct.  The readings insert goes
    out before the event insert, and the event insert is not attempted
    once the readings insert has failed.  After a successful add the
    stamped readings are in the readings collection, the event document
    that refers to them is in the events collection, and every reading of
    the event carries the event's creation time and device. *)
Theorem add_event_stamps_event_and_readings (t : Z) (e : Event.t) (db : Database) :
  let res := AddEvent t e db in
  let e' := fst (fst (fst res)) in
  let id := snd (fst (fst res)) in
  let err := snd (fst res) in
  let db' := snd res in
  let k := List.length (Event.Readings e) in
  (id = objectIdOfCounter (counter db) /\
   Event.ID e' = id /\
   Event.Created e' = nowMillis t /\
   Event.Device e' = Event.Device e) /\
  (map Reading.Id (Event.Readings e') = drawn (N.succ (counter db)) k /\
   map Reading.Name (Event.Readings e') = map Reading.Name (Event.Readings e) /\
   map Reading.Value (Event.Readings e') = map Reading.Value (Event.Readings e) /\
   ((counter db + N.of_nat (S k) <= 2 ^ 96)%N ->
    NoDup (Event.ID e' :: map Reading.Id (Event.Readings e')))) /\
  Forall (fun r => Reading.Created r = Event.Created e' /\
                   Reading.Device r = Event.Device e') (Event.Readings e') /\
  (exists calls,
      trace db' = (trace db ++ calls)%list /\
      (calls = [CInsert EVENTS_COLLECTION 1] \/
       calls = [CInsert READINGS_COLLECTION k] \/
       calls = [CInsert READINGS_COLLECTION k; CInsert EVENTS_COLLECTION 1])) /\
  (k <> 0 -> nextOutcome db <> None ->
   err = nextOutcome db /\ sameData db db' /\
   trace db' = (trace db ++ [CInsert READINGS_COLLECTION k])%list) /\
  (err = None ->
   readings db' = (if Nat.eqb k 0 then readings db
                   else readings db ++ Event.Readings e')%list /\
   events db' = (events db ++ [MongoEvent.ofEvent e'])%list /\
   valueDescriptors db' = valueDescriptors db).
Proof.
  cbv zeta. rewrite AddEvent_run. cbv zeta.
  destruct e as [id0 pushed device created modified rs].
  cbn [Event.Readings Event.Device].
  assert (Hdraw : forall k, (counter db + N.of_nat (S k) <= 2 ^ 96)%N ->
            NoDup (objectIdOfCounter (counter db) :: drawn (N.succ (counter db)) k)).
  { intros k Hk. rewrite <- drawn_S. now apply drawn_NoDup. }
  destruct rs as [|r rs].
  - destruct db as [ev rd vd cnt pend tr].
    destruct pend as [|[msg|] rest]; unfold Insert, added; run;
      (split_all; try reflexivity; try congruence;
       try (intros _; constructor; [intros []|constructor]);
       try (eexists; split; [reflexivity|]; now left);
       try discriminate; try (now constructor)).
  - pose proof (stamped_ids (nowMillis t) device (r :: rs) (N.succ (counter db))) as Hids.
    pose proof (stamped_Forall (nowMillis t) device (r :: rs) (N.succ (counter db))) as Hall.
    pose proof (stamped_payload (nowMillis t) device (r :: rs) (N.succ (counter db)))
      as [Hn [Hv _]].
    pose proof (stamped_length (nowMillis t) device (r :: rs) (N.succ (counter db))) as Hlen.
    unfold added. cbn [Event.Readings Event.Device].
    set (ui := stamped (nowMillis t) device (N.succ (counter db)) (r :: rs)) in *.
    clearbody ui.
    destruct db as [ev rd vd cnt pend tr].
    cbn [counter] in *.
    destruct pend as [|[msg|] [|[msg'|] rest]]; unfold Insert, nextOutcome, sameData; run;
      rewrite ?Hlen;
      (split_all; try reflexivity; try assumption; try congruence;
       try (intros Hk; rewrite Hids; apply Hdraw; exact Hk);
       try (eexists; split; [rewrite <- ?app_assoc; reflexivity|]; cbn; tauto);
       try discriminate; try (intros _ _; now repeat split)).
Qed.

(** C4.  When the event has readings, the readings insert goes through
    and the event insert that follows fails, [AddEvent] returns that
    failure (with the identifier it had assigned) and undoes nothing: the
    stamped readings stay in the readings collection, the events
    collection has not changed, and no further call was issued after the
    failed insert. *)
Theorem add_event_failure_keeps_inserted_readings
  (t : Z) (e : Event.t) (db : Database) (msg : string) (rest : list (option string))
  (Hreadings : Event.Readings e <> [])
  (Hschedule : pending db = None :: Some msg :: rest) :
  let res := AddEvent t e db in
  let e' := fst (fst (fst res)) in
  let db' := snd res in
  snd (fst res) = Some (driverError msg) /\
  snd (fst (fst res)) = Event.ID e' /\
  Event.Readings e' <> [] /\
  readings db' = (readings db ++ Event.Readings e')%list /\
  events db' = events db /\
  valueDescriptors db' = valueDescriptors db /\
  trace db'
  = (trace db ++ [CInsert READINGS_COLLECTION (List.length (Event.Readings e));
                  CInsert EVENTS_COLLECTION 1])%list /\
  pending db' = rest.
Proof.
  cbv zeta. rewrite AddEvent_run. cbv zeta.
  destruct e as [id0 pushed device created modified rs].
  cbn [Event.Readings Event.Device] in *.
  destruct rs as [|r rs]; [contradiction|].
  pose proof (stamped_length (nowMillis t) device (r :: rs) (N.succ (counter db))) as Hlen.
  unfold added. cbn [Event.Readings Event.Device].
  set (ui := stamped (nowMillis t) device (N.succ (counter db)) (r :: rs)) in *.
  clearbody ui.
  destruct db as [ev rd vd cnt pend tr]. cbn [pending] in Hschedule. subst pend.
  unfold Insert; run. rewrite Hlen.
  split_all; try reflexivity.
  - intros ->. discriminate Hlen.
  - now rewrite <- app_assoc.
Qed.

Lemma add_event_failure_keeps_inserted_readings_witness :
  let db := mkDatabase [] [] [] 0 [None; Some "connection reset"] [] in
  snd (fst (AddEvent 1700000000123456789 eventD1 db))
  = Some (driverError "connection reset") /\
  List.length (readings (snd (AddEvent 1700000000123456789 eventD1 db))) = 1 /\
  events (snd (AddEvent 1700000000123456789 eventD1 db)) = [].
Proof.
  cbv zeta.
  pose proof (add_event_failure_keeps_inserted_readings 1700000000123456789 eventD1
                (mkDatabase [] [] [] 0 [None; Some "connection reset"] [])
                "connection reset" []
                ltac:(discriminate) eq_refl) as H.
  cbv zeta in H. destruct H as [H1 [_ [_ [H4 [H5 _]]]]].
  split; [exact H1|]. split; [rewrite H4; reflexivity|exact H5].
Defined.

(** C10.  For an event without readings [AddEvent] issues a single call,
    the insert of the event document: nothing is sent to the readings
    collection, which stays as it was whether or not that insert goes
    through; when it does, the event document is appended to the events
    collection and no error is returned. *)
Theorem add_event_without_readings_skips_readings_insert
  (t : Z) (e : Event.t) (db : Database) (Hempty : Event.Readings e = []) :
  let res := AddEvent t e db in
  let e' := fst (fst (fst res)) in
  let db' := snd res in
  readings db' = readings db /\
  valueDescriptors db' = valueDescriptors db /\
  trace db' = (trace db ++ [CInsert EVENTS_COLLECTION 1])%list /\
  pending db' = tl (pending db) /\
  snd (fst res) = nextOutcome db /\
  (nextOutcome db = None ->
   events db' = (events db ++ [MongoEvent.ofEvent e'])%list /\
   Event.Readings e' = []) /\
  (nextOutcome db <> None -> events db' = events db).
Proof.
  cbv zeta. rewrite AddEvent_run. cbv zeta. rewrite Hempty.
  destruct e as [id0 pushed device created modified rs].
  cbn [Event.Readings] in Hempty. subst rs.
  destruct db as [ev rd vd cnt pend tr].
  destruct pend as [|[msg|] rest]; unfold Insert, added, nextOutcome; run;
    split_all; try reflexivity; try discriminate; try congruence;
    intros; now repeat split.
Qed.

Lemma add_event_without_readings_witness :
  let e := Event.mk EmptyString 0 "d1" 0 0 [] in
  readings (snd (AddEvent 1700000000123456789 e emptyDatabase)) = [] /\
  trace (snd (AddEvent 1700000000123456789 e emptyDatabase))
  = [CInsert EVENTS_COLLECTION 1].
Proof.
  cbv zeta.
  pose proof (add_event_without_readings_skips_readings_insert 1700000000123456789
                (Event.mk EmptyString 0 "d1" 0 0 []) emptyDatabase eq_refl) as H.
  cbv zeta in H. destruct H as [H1 [_ [H3 _]]].
  split; [exact H1|exact H3].
Defined.

(* --------------------------------------------------------------------- *)
(** *** Limits *)
(* --------------------------------------------------------------------- *)

Lemma loadEvents_length (rs : list Reading.t) (ds : list MongoEvent.doc) :
  forall es, loadEvents rs ds = Some es -> List.length es = List.length ds.
Proof.
  induction ds as [|d ds IH]; intros es H; simpl in H.
  - now inversion H.
  - destruct (loadEvent rs d); [|discriminate].
    destruct (loadEvents rs ds) as [es'|]; [|discriminate].
    inversion H; subst. simpl. f_equal. now apply IH.
Qed.

Lemma loadEvents_firstn (rs : list Reading.t) (n : nat) :
  forall ds es,
    loadEvents rs ds = Some es -> loadEvents rs (firstn n ds) = Some (firstn n es).
Proof.
  induction n as [|n IH]; intros ds es H; [reflexivity|].
  destruct ds as [|d ds]; simpl in H.
  - now inversion H.
  - destruct (loadEvent rs d) as [e|] eqn:He; [|discriminate].
    destruct (loadEvents rs ds) as [es'|] eqn:Hes; [|discriminate].
    inversion H; subst. simpl. rewrite He. now rewrite (IH ds es' Hes).
Qed.

Lemma Limit_nonzero {D : Type} (n : Z) (l : list D) :
  n <> 0%Z -> Limit n l = firstn (Z.abs_nat n) l.
Proof. intros H. unfold Limit. now apply Z.eqb_neq in H as ->. Qed.

Lemma getReadingsLimit_zero (q : M) (db : Database) :
  getReadingsLimit q 0 db = ([], None, db).
Proof. reflexivity. Qed.

Lemma getEventsLimit_zero (q : M) (db : Database) :
  getEventsLimit q 0 db = ([], None, db).
Proof. reflexivity. Qed.

Lemma getReadingsLimit_truncates (q : M) (limit : Z) (db : Database) :
  limit <> 0%Z -> truncates limit (getReadingsLimit q limit db) (getReadings q db).
Proof.
  intros Hl. unfold truncates, getReadingsLimit, getReadings.
  apply Z.eqb_neq in Hl as Hl'. rewrite Hl'.
  unfold FindAll, bind. rewrite issue_run.
  destruct (nextOutcome db) as [err|]; unfold ret, gets; cbn [fst snd].
  - split; [simpl; lia|discriminate].
  - rewrite Limit_nonzero by assumption. split.
    + rewrite length_firstn. lia.
    + intros _. now repeat split.
Qed.

Lemma getEventsLimit_truncates (q : M) (limit : Z) (db : Database) :
  limit <> 0%Z -> truncates limit (getEventsLimit q limit db) (getEvents q db).
Proof.
  intros Hl. unfold truncates, getEventsLimit, getEvents.
  apply Z.eqb_neq in Hl as Hl'. rewrite Hl'.
  unfold FindAll, bind. rewrite issue_run.
  destruct (nextOutcome db) as [err|]; unfold ret, gets; cbn [fst snd].
  - split; [simpl; lia|discriminate].
  - rewrite Limit_nonzero by assumption.
    set (ds := filter (selects eventsC q) (docs eventsC (afterCall (CFind (cname eventsC) q) db))).
    set (rs := readings (afterCall (CFind (cname eventsC) q) db)).
    split.
    + destruct (loadEvents rs (firstn (Z.abs_nat limit) ds)) as [es|] eqn:He; cbn [fst snd].
      * apply loadEvents_length in He. rewrite He, length_firstn. lia.
      * simpl. lia.
    + destruct (loadEvents rs ds) as [all|] eqn:Hall; cbn [fst snd]; [|discriminate].
      intros _. rewrite (loadEvents_firstn rs (Z.abs_nat limit) ds all Hall).
      now repeat split.
Qed.

(** C2.  With [limit = 0] each of the seven limited listings (events by
    device and by creation time; readings by device, by value-descriptor
    name, by a set of names, by creation time, by device and
    value-descriptor) returns the empty list and no error and leaves the
    database untouched, whatever it holds and whatever the driver would
    have answered.  With a nonzero limit the result never exceeds
    [|limit|] documents, and whenever the corresponding unlimited listing
    succeeds the limited one succeeds as well and returns its first
    [|limit|] documents: an excess of matches is cut off, not reported. *)
Theorem limit_zero_is_empty_and_nonzero_limit_truncates
  (db : Database) (limit : Z) (id name deviceId valueDescriptor : string)
  (names : list string) (startTime endTime : Z) :
  (limit = 0%Z ->
   EventsForDeviceLimit id limit db = ([], None, db) /\
   EventsByCreationTime startTime endTime limit db = ([], None, db) /\
   ReadingsByDevice id limit db = ([], None, db) /\
   ReadingsByValueDescriptor name limit db = ([], None, db) /\
   ReadingsByValueDescriptorNames names limit db = ([], None, db) /\
   ReadingsByCreationTime startTime endTime limit db = ([], None, db) /\
   ReadingsByDeviceAndValueDescriptor deviceId valueDescriptor limit db = ([], None, db)) /\
  (limit <> 0%Z ->
   truncates limit (EventsForDeviceLimit id limit db) (EventsForDevice id db) /\
   truncates limit (EventsByCreationTime startTime endTime limit db)
             (getEvents [("created", [Gte startTime; Lte endTime])] db) /\
   truncates limit (ReadingsByDevice id limit db)
             (getReadings [("device", [Is (VString id)])] db) /\
   truncates limit (ReadingsByValueDescriptor name limit db)
             (getReadings [("name", [Is (VString name)])] db) /\
   truncates limit (ReadingsByValueDescriptorNames names limit db)
             (getReadings [("name", [In names])] db) /\
   truncates limit (ReadingsByCreationTime startTime endTime limit db)
             (getReadings [("created", [Gte startTime; Lte endTime])] db) /\
   truncates limit (ReadingsByDeviceAndValueDescriptor deviceId valueDescriptor limit db)
             (getReadings [("device", [Is (VString deviceId)]);
                           ("name", [Is (VString valueDescriptor)])] db)).
Proof.
  split.
  - intros ->. now repeat split.
  - intros Hl.
    unfold EventsForDeviceLimit, EventsForDevice, EventsByCreationTime, ReadingsByDevice,
      ReadingsByValueDescriptor, ReadingsByValueDescriptorNames, ReadingsByCreationTime,
      ReadingsByDeviceAndValueDescriptor.
    split_all;
      first [now apply getEventsLimit_truncates | now apply getReadingsLimit_truncates].
Qed.

(* --------------------------------------------------------------------- *)
(** *** Value descriptors by name *)
(* --------------------------------------------------------------------- *)

Lemma selects_byName (name : string) (v : ValueDescriptor.t) :
  selects valueDescriptorsC (byName name) v = String.eqb name (ValueDescriptor.Name v).
Proof. unfold selects, byName. simpl. now rewrite !andb_true_r. Qed.

Lemma filter_byName (name : string) (vds : list ValueDescriptor.t) :
  filter (selects valueDescriptorsC (byName name)) vds
  = filter (fun v => String.eqb name (ValueDescriptor.Name v)) vds.
Proof. apply filter_ext. intros v. apply selects_byName. Qed.

Lemma hd_filter {A : Type} (p : A -> bool) (l : list A) :
  match filter p l with x :: _ => Some x | [] => None end = find p l.
Proof.
  induction l as [|a l IH]; [reflexivity|]. simpl. now destruct (p a).
Qed.

Lemma getValueDescriptor_byName_run (name : string) (db : Database) :
  getValueDescriptor (byName name) db
  = (match nextOutcome db with
     | Some err => (ValueDescriptor.zero, Some err)
     | None =>
         match named (valueDescriptors db) name with
         | Some v => (v, None)
         | None => (ValueDescriptor.zero, Some ErrNotFound)
         end
     end,
     afterCall (CFind VALUE_DESCRIPTOR_COLLECTION (byName name)) db).
Proof.
  unfold getValueDescriptor, FindOne, bind. rewrite issue_run.
  unfold nextOutcome. destruct (pending db) as [|[msg|] rest]; unfold ret, gets;
    cbn [docs valueDescriptorsC afterCall valueDescriptors orNotFound];
    try reflexivity;
    unfold named; rewrite <- hd_filter, filter_byName;
    destruct (filter _ (valueDescriptors db)); reflexivity.
Qed.

Lemma skipn_tl {A : Type} (n : nat) (l : list A) : skipn n (tl l) = skipn (S n) l.
Proof. destruct l; [now destruct n|reflexivity]. Qed.

Lemma afterLookups_cons (name : string) (names : list string) (db : Database) :
  afterLookups names (afterCall (CFind VALUE_DESCRIPTOR_COLLECTION (byName name)) db)
  = afterLookups (name :: names) db.
Proof.
  unfold afterLookups, afterCall. cbn [events readings valueDescriptors counter pending trace].
  rewrite skipn_tl, <- app_assoc. reflexivity.
Qed.

Lemma quiet_step (n : nat) (c : call) (db : Database) :
  quiet (S n) db = true -> nextOutcome db = None /\ quiet n (afterCall c db) = true.
Proof.
  unfold quiet, nextOutcome, afterCall. cbn [pending].
  destruct (pending db) as [|[msg|] rest]; simpl; intros H.
  - split; [reflexivity|now destruct n].
  - discriminate.
  - now split.
Qed.

Lemma lookupEach_quiet (names : list string) :
  forall (vList : list ValueDescriptor.t) (db : Database),
    quiet (List.length names) db = true ->
    lookupEach names vList db
    = ((vList ++ resolved (valueDescriptors db) names)%list, None, afterLookups names db).
Proof.
  induction names as [|name names IH]; intros vList db Hq.
  - cbn. unfold ret, afterLookups. cbn. rewrite !app_nil_r. now destruct db.
  - cbn [lookupEach]. unfold bind, ValueDescriptorByName.
    fold (byName name). rewrite getValueDescriptor_byName_run.
    apply (quiet_step _ (CFind VALUE_DESCRIPTOR_COLLECTION (byName name))) in Hq as [Hn Hq].
    rewrite Hn. unfold resolved. cbn [flat_map].
    destruct (named (valueDescriptors db) name) as [v|]; cbn [fst snd error_eqb negb].
    + rewrite IH by assumption. rewrite afterLookups_cons, <- app_assoc. reflexivity.
    + rewrite IH by assumption. rewrite afterLookups_cons. reflexivity.
Qed.

Lemma lookupEach_abort (k : nat) :
  forall (names : list string) (vList : list ValueDescriptor.t) (db : Database)
         (msg : string) (rest : list (option string)),
    pending db = (repeat None k ++ Some msg :: rest)%list ->
    k < List.length names ->
    lookupEach names vList db
    = ([], Some (driverError msg),
       mkDatabase (events db) (readings db) (valueDescriptors db) (counter db) rest
         (trace db ++ map (fun name => CFind VALUE_DESCRIPTOR_COLLECTION (byName name))
                          (firstn (S k) names))%list).
Proof.
  induction k as [|k IH]; intros names vList db msg rest Hp Hk;
    (destruct names as [|name names]; [simpl in Hk; lia|]);
    cbn [lookupEach]; unfold bind, ValueDescriptorByName; fold (byName name);
    rewrite getValueDescriptor_byName_run; unfold nextOutcome; rewrite Hp;
    cbn [repeat app].
  - cbn [fst snd error_eqb negb]. unfold ret, afterCall. rewrite Hp. reflexivity.
  - assert (Hp' : pending (afterCall (CFind VALUE_DESCRIPTOR_COLLECTION (byName name)) db)
                  = (repeat None k ++ Some msg :: rest)%list)
      by (unfold afterCall; cbn [pending]; now rewrite Hp).
    simpl in Hk. apply PeanoNat.lt_S_n in Hk.
    destruct (named (valueDescriptors db) name) as [v|]; cbn [fst snd error_eqb negb];
      rewrite (IH _ _ _ msg rest Hp' Hk); unfold afterCall;
      cbn [events readings valueDescriptors counter trace];
      rewrite <- app_assoc; reflexivity.
Qed.

(** C7.  [ValueDescriptorsByName] looks the names up one at a time, in
    the order of the list (the trace shows one find by name per name, in
    that order).  If the driver lets all of them through, the result is
    the list of the descriptors found, in the order of the names, every
    name that resolves to nothing left out, with no error.  If a lookup
    fails with an error of the driver, the loop stops there: the result is
    the empty list with that error, and no lookup is issued for the names
    that follow. *)
Theorem value_descriptors_by_name_skips_missing_and_aborts_on_failure
  (names : list string) (db : Database) :
  (quiet (List.length names) db = true ->
   ValueDescriptorsByName names db
   = (resolved (valueDescriptors db) names, None, afterLookups names db)) /\
  (forall (k : nat) (msg : string) (rest : list (option string)),
      pending db = (repeat None k ++ Some msg :: rest)%list ->
      k < List.length names ->
      ValueDescriptorsByName names db
      = ([], Some (driverError msg),
         mkDatabase (events db) (readings db) (valueDescriptors db) (counter db) rest
           (trace db ++ map (fun name => CFind VALUE_DESCRIPTOR_COLLECTION (byName name))
                            (firstn (S k) names))%list)).
Proof.
  unfold ValueDescriptorsByName. split.
  - intros Hq. now rewrite lookupEach_quiet.
  - intros k msg rest Hp Hk. now apply lookupEach_abort.
Qed.

(* --------------------------------------------------------------------- *)
(** *** Replacement by identifier *)
(* --------------------------------------------------------------------- *)

Lemma replaceFirst_None {D : Type} (p : D -> bool) (d : D) (l : list D) :
  replaceFirst p d l = None <-> (forall x, List.In x l -> p x = false).
Proof.
  induction l as [|a l IH]; simpl.
  - split; [intros _ x []|reflexivity].
  - destruct (p a) eqn:Ha.
    + split; [discriminate|]. intros H. specialize (H a (or_introl eq_refl)). congruence.
    + destruct (replaceFirst p d l) as [l'|].
      * split; [discriminate|]. intros H.
        assert (E : Some l' = None) by (apply IH; intros x Hx; apply H; now right).
        discriminate E.
      * split; [|reflexivity]. intros _ x [<-|Hx]; [assumption|].
        now apply (proj1 IH).
Qed.

Lemma replaceFirst_Some {D : Type} (p : D -> bool) (d : D) (l : list D) :
  forall l',
    replaceFirst p d l = Some l' ->
    exists l1 x l2,
      l = (l1 ++ x :: l2)%list /\ p x = true /\
      (forall y, List.In y l1 -> p y = false) /\
      l' = (l1 ++ d :: l2)%list.
Proof.
  induction l as [|a l IH]; intros l' H; simpl in H; [discriminate|].
  destruct (p a) eqn:Ha.
  - inversion H; subst. exists [], a, l. repeat split; try assumption. intros y [].
  - destruct (replaceFirst p d l) as [l0|]; [|discriminate].
    inversion H; subst. destruct (IH l0 eq_refl) as [l1 [x [l2 [E [Hx [Hl1 E']]]]]].
    exists (a :: l1), x, l2. subst. repeat split; try assumption.
    intros y [<-|Hy]; [assumption|now apply Hl1].
Qed.

Lemma UpdateId_run {D : Type} (C : Collection D) (id : ObjectId) (d : D) (db : Database) :
  UpdateId C id d db
  = match nextOutcome db with
    | Some err => (Some err, afterCall (CUpdateId (cname C) id) db)
    | None =>
        match replaceFirst (byId C id) d (docs C (afterCall (CUpdateId (cname C) id) db)) with
        | Some l => (None, store C l (afterCall (CUpdateId (cname C) id) db))
        | None => (Some mgoErrNotFound, afterCall (CUpdateId (cname C) id) db)
        end
    end.
Proof.
  unfold UpdateId, bind. rewrite issue_run.
  destruct (nextOutcome db); [reflexivity|]. unfold gets, ret, modify.
  destruct (replaceFirst _ _ _); reflexivity.
Qed.

Lemma NoDup_map_eq {A B : Type} (f : A -> B) (l : list A) :
  NoDup (map f l) -> forall a b, List.In a l -> List.In b l -> f a = f b -> a = b.
Proof.
  induction l as [|x l IH]; intros Hnd a b Ha Hb E; [destruct Ha|].
  simpl in Hnd. inversion Hnd as [|y l' Hx Hnd']; subst.
  destruct Ha as [<-|Ha], Hb as [<-|Hb]; try reflexivity.
  - exfalso. apply Hx. rewrite E. now apply in_map.
  - exfalso. apply Hx. rewrite <- E. now apply in_map.
  - now apply IH.
Qed.

Lemma named_None (vds : list ValueDescriptor.t) (name : string) :
  named vds name = None ->
  forall d, List.In d vds -> ValueDescriptor.Name d <> name.
Proof.
  unfold named. intros H d Hd E.
  pose proof (find_none _ _ H d Hd) as Hf. simpl in Hf.
  rewrite E, String.eqb_refl in Hf. discriminate.
Qed.

Lemma named_Some (vds : list ValueDescriptor.t) (name : string) (d : ValueDescriptor.t) :
  named vds name = Some d -> List.In d vds /\ ValueDescriptor.Name d = name.
Proof.
  unfold named. intros H. apply find_some in H as [Hin Hn].
  apply String.eqb_eq in Hn. now split.
Qed.

(* --------------------------------------------------------------------- *)
(** *** Updating a value descriptor *)
(* --------------------------------------------------------------------- *)

Lemma UpdateValueDescriptor_run (t : Z) (v : ValueDescriptor.t) (db : Database) :
  UpdateValueDescriptor t v db
  = let c := CFind VALUE_DESCRIPTOR_COLLECTION (byName (ValueDescriptor.Name v)) in
    let update :=
      bind (UpdateId valueDescriptorsC (ValueDescriptor.Id v)
              (ValueDescriptor.setModified (nowMillis t) v))
           (fun err => ret (orNotFound err)) in
    match nextOutcome db with
    | Some err => (Some err, afterCall c db)
    | None =>
        match named (valueDescriptors db) (ValueDescriptor.Name v) with
        | Some d =>
            if String.eqb (ValueDescriptor.Id d) (ValueDescriptor.Id v)
            then update (afterCall c db)
            else (Some ErrNotUnique, afterCall c db)
        | None => update (afterCall c db)
        end
    end.
Proof.
  cbv zeta. unfold UpdateValueDescriptor, bind at 1.
  fold (byName (ValueDescriptor.Name v)). rewrite getValueDescriptor_byName_run.
  unfold nextOutcome. destruct (pending db) as [|[msg|] rest]; cbn [fst snd];
    try reflexivity;
    destruct (named (valueDescriptors db) (ValueDescriptor.Name v)) as [d|];
    cbn [fst snd]; try reflexivity;
    unfold ObjectId_eqb;
    destruct (String.eqb (ValueDescriptor.Id d) (ValueDescriptor.Id v)); reflexivity.
Qed.



(* --------------------------------------------------------------------- *)
(** *** Identifiers that are not well formed *)
(* --------------------------------------------------------------------- *)

Lemma nextOutcome_driverError (db : Database) (err : error) :
  nextOutcome db = Some err -> exists msg, err = driverError msg.
Proof.
  unfold nextOutcome. destruct (pending db) as [|[msg|] rest]; try discriminate.
  intros H. inversion H. now exists msg.
Qed.

Lemma orNotFound_valid (err : option error) :
  err <> Some ErrInvalidObjectId -> orNotFound err <> Some ErrInvalidObjectId.
Proof. destruct err as [[]|]; simpl; intros H; try discriminate; exact H. Qed.

Lemma nextOutcome_valid (db : Database) : nextOutcome db <> Some ErrInvalidObjectId.
Proof.
  intros H. apply nextOutcome_driverError in H as [msg H]. discriminate H.
Qed.

(** C5, as amended.  Every operation that takes an identifier string
    (get by id and delete by id, for events, readings and value
    descriptors) answers a string that is not a well-formed object-id hex
    string with [ErrInvalidObjectId] and leaves the database as it was:
    no collection changes, no call is made on the driver, no scheduled
    outcome is consumed.  The test is [IsObjectIdHex], a function of the
    string alone.  The update operations take the entity and contain no
    such test: whatever identifier the entity carries, [UpdateEvent] and
    [UpdateReading] make their replacement-by-identifier call on the
    driver, [UpdateValueDescriptor] makes the lookup by name on it first,
    and none of them ever returns [ErrInvalidObjectId]. *)
Theorem invalid_identifier_rejected_before_any_store_call
  (id : string) (db : Database) (t : Z)
  (e : Event.t) (r : Reading.t) (v : ValueDescriptor.t)
  (Hbad : IsObjectIdHex id = false) :
  (EventById id db = (Event.zero, Some ErrInvalidObjectId, db) /\
   ReadingById id db
     = (Reading.mk EmptyString 0 0 EmptyString EmptyString EmptyString,
        Some ErrInvalidObjectId, db) /\
   ValueDescriptorById id db = (ValueDescriptor.zero, Some ErrInvalidObjectId, db) /\
   DeleteEventById id db = (Some ErrInvalidObjectId, db) /\
   DeleteReadingById id db = (Some ErrInvalidObjectId, db) /\
   DeleteValueDescriptorById id db = (Some ErrInvalidObjectId, db)) /\
  (trace (snd (UpdateEvent t e db))
   = (trace db ++ [CUpdateId EVENTS_COLLECTION (Event.ID e)])%list /\
   fst (UpdateEvent t e db) <> Some ErrInvalidObjectId) /\
  (trace (snd (UpdateReading t r db))
   = (trace db ++ [CUpdateId READINGS_COLLECTION (Reading.Id r)])%list /\
   fst (UpdateReading t r db) <> Some ErrInvalidObjectId) /\
  ((exists later,
       trace (snd (UpdateValueDescriptor t v db))
       = (trace db
          ++ CFind VALUE_DESCRIPTOR_COLLECTION (byName (ValueDescriptor.Name v)) :: later)%list) /\
   fst (UpdateValueDescriptor t v db) <> Some ErrInvalidObjectId).
Proof.
  split; [|split; [|split]].
  - unfold EventById, ReadingById, ValueDescriptorById, DeleteEventById,
      DeleteReadingById, DeleteValueDescriptorById.
    rewrite Hbad; simpl. split_all; try reflexivity.
    apply deleteById_invalid; assumption.
  - unfold UpdateEvent, bind. rewrite UpdateId_run.
    cbn [Event.ID Event.setModified].
    pose proof (nextOutcome_valid db) as Hv.
    destruct (nextOutcome db) as [err|].
    + unfold ret. cbn [fst snd afterCall trace]. split; [reflexivity|].
      now apply orNotFound_valid.
    + destruct (replaceFirst _ _ _); unfold ret;
        cbn [fst snd afterCall trace store eventsC setEvents orNotFound];
        (split; [reflexivity|discriminate]).
  - unfold UpdateReading, bind. rewrite UpdateId_run.
    cbn [Reading.Id Reading.setModified].
    pose proof (nextOutcome_valid db) as Hv.
    destruct (nextOutcome db) as [err|].
    + unfold ret. cbn [fst snd afterCall trace]. split; [reflexivity|].
      now apply orNotFound_valid.
    + destruct (replaceFirst _ _ _); unfold ret;
        cbn [fst snd afterCall trace store readingsC setReadings orNotFound];
        (split; [reflexivity|discriminate]).
  - rewrite UpdateValueDescriptor_run. cbv zeta.
    set (c := CFind VALUE_DESCRIPTOR_COLLECTION (byName (ValueDescriptor.Name v))).
    assert (Hupdate :
      (exists later,
          trace (snd (bind (UpdateId valueDescriptorsC (ValueDescriptor.Id v)
                              (ValueDescriptor.setModified (nowMillis t) v))
                           (fun err => ret (orNotFound err)) (afterCall c db)))
          = (trace db ++ c :: later)%list) /\
      fst (bind (UpdateId valueDescriptorsC (ValueDescriptor.Id v)
                   (ValueDescriptor.setModified (nowMillis t) v))
                (fun err => ret (orNotFound err)) (afterCall c db))
      <> Some ErrInvalidObjectId).
    { unfold bind. rewrite UpdateId_run.
      pose proof (nextOutcome_valid (afterCall c db)) as Hv.
      destruct (nextOutcome (afterCall c db)) as [err|].
      - unfold ret. cbn [fst snd afterCall trace]. split.
        + eexists. rewrite <- app_assoc. reflexivity.
        + now apply orNotFound_valid.
      - destruct (replaceFirst _ _ _); unfold ret;
          cbn [fst snd afterCall trace store valueDescriptorsC setValueDescriptors
               orNotFound cname];
          (split; [eexists; rewrite <- app_assoc; reflexivity|discriminate]). }
    pose proof (nextOutcome_valid db) as Hv.
    destruct (nextOutcome db) as [err|].
    + cbn [fst snd afterCall trace]. split; [now exists []|exact Hv].
    + destruct (named (valueDescriptors db) (ValueDescriptor.Name v)) as [d|];
        [|exact Hupdate].
      destruct (String.eqb (ValueDescriptor.Id d) (ValueDescriptor.Id v));
        [exact Hupdate|].
      cbn [fst snd afterCall trace]. split; [now exists []|discriminate].
Qed.

Lemma invalid_identifier_rejected_witness :
  IsObjectIdHex "not-a-hex-id" = false /\
  DeleteReadingById "not-a-hex-id" emptyDatabase = (Some ErrInvalidObjectId, emptyDatabase) /\
  fst (UpdateReading 0 strayReading emptyDatabase) <> Some ErrInvalidObjectId.
Proof.
  pose proof (invalid_identifier_rejected_before_any_store_call "not-a-hex-id" emptyDatabase
                0 eventD1 strayReading vdTemp eq_refl) as [[_ [_ [_ [_ [Hd _]]]]] [_ [[_ Hu] _]]].
  split; [reflexivity|]. split; [exact Hd|exact Hu].
Defined.

(** C5 as stated fails for the update operations: they take the entity,
    not an identifier string, and never test the identifier it carries.
    For an event, a reading or a value descriptor whose identifier is not
    a well-formed one (here the zero value, which was never assigned) the
    calls are made on the driver all the same, and the answer is not
    [ErrInvalidObjectId]. *)
Lemma update_skips_identifier_validation :
  (Valid (Reading.Id strayReading) = false /\
   IsObjectIdHex (Reading.Id strayReading) = false /\
   fst (UpdateReading 0 strayReading emptyDatabase) <> Some ErrInvalidObjectId /\
   trace (snd (UpdateReading 0 strayReading emptyDatabase))
   = [CUpdateId READINGS_COLLECTION EmptyString]) /\
  (Valid (Event.ID eventD1) = false /\
   fst (UpdateEvent 0 eventD1 emptyDatabase) <> Some ErrInvalidObjectId /\
   trace (snd (UpdateEvent 0 eventD1 emptyDatabase))
   = [CUpdateId EVENTS_COLLECTION EmptyString]) /\
  (Valid (ValueDescriptor.Id vdTemp) = false /\
   fst (UpdateValueDescriptor 0 vdTemp emptyDatabase) <> Some ErrInvalidObjectId /\
   trace (snd (UpdateValueDescriptor 0 vdTemp emptyDatabase))
   = [CFind VALUE_DESCRIPTOR_COLLECTION (byName "temp");
      CUpdateId VALUE_DESCRIPTOR_COLLECTION EmptyString]).
Proof.
  split_all; try reflexivity; intros H; vm_compute in H; discriminate H.
Qed.

(* --------------------------------------------------------------------- *)
(** *** Updating an event *)
(* --------------------------------------------------------------------- *)

(** C8, as amended.  [UpdateEvent] issues one call, the replacement of
    the event document by identifier, and never touches the readings
    collection (nor the value descriptors).  When the driver lets the
    call through: if no event document has the identifier the result is
    [ErrNotFound] and nothing changes; otherwise that document is
    replaced whole by the caller's event with the clock's reading as
    modification time, so that the document's list of readings becomes
    the list of the identifiers of the readings that the caller's event
    carries. *)
Theorem update_event_replaces_document_and_leaves_readings_collection
  (t : Z) (e : Event.t) (db : Database) :
  let res := UpdateEvent t e db in
  let written := MongoEvent.ofEvent (Event.setModified (nowMillis t) e) in
  readings (snd res) = readings db /\
  valueDescriptors (snd res) = valueDescriptors db /\
  trace (snd res) = (trace db ++ [CUpdateId EVENTS_COLLECTION (Event.ID e)])%list /\
  MongoEvent.Modified written = nowMillis t /\
  MongoEvent.Readings written = map Reading.Id (Event.Readings e) /\
  (nextOutcome db = None ->
   ((forall d, List.In d (events db) -> MongoEvent.ID d <> Event.ID e) ->
    fst res = Some ErrNotFound /\ events (snd res) = events db) /\
   ((exists d, List.In d (events db) /\ MongoEvent.ID d = Event.ID e) ->
    exists l1 d l2,
      events db = (l1 ++ d :: l2)%list /\
      MongoEvent.ID d = Event.ID e /\
      (forall y, List.In y l1 -> MongoEvent.ID y <> Event.ID e) /\
      events (snd res) = (l1 ++ written :: l2)%list /\
      fst res = None)).
Proof.
  cbv zeta. unfold UpdateEvent, bind. rewrite UpdateId_run.
  cbn [Event.ID Event.setModified docs eventsC cname afterCall events].
  destruct (nextOutcome db) as [err|] eqn:Hn.
  - unfold ret. cbn. split_all; try reflexivity. discriminate.
  - destruct (replaceFirst (byId eventsC (Event.ID e))
                (MongoEvent.ofEvent (Event.setModified (nowMillis t) e)) (events db))
      as [l|] eqn:Hr; unfold ret; cbn; split_all; try reflexivity; intros _; split.
    + apply replaceFirst_Some in Hr as [l1 [d [l2 [E [Hd [Hl1 E']]]]]].
      unfold byId, ObjectId_eqb in Hd. cbn [oid] in Hd. apply String.eqb_eq in Hd.
      intros Hno. exfalso. apply (Hno d); [|assumption].
      rewrite E. apply in_or_app. right. now left.
    + intros _. apply replaceFirst_Some in Hr as [l1 [d [l2 [E [Hd [Hl1 E']]]]]].
      unfold byId, ObjectId_eqb in Hd, Hl1. cbn [oid] in Hd, Hl1.
      apply String.eqb_eq in Hd. exists l1, d, l2.
      split_all; try assumption; try reflexivity.
      intros y Hy. specialize (Hl1 y Hy). now apply String.eqb_neq in Hl1.
    + intros _. now split.
    + intros [d [Hin Hid]]. exfalso.
      pose proof (proj1 (replaceFirst_None _ _ _) Hr d Hin) as Hf.
      unfold byId, ObjectId_eqb in Hf. cbn [oid eventsC] in Hf.
      rewrite Hid, String.eqb_refl in Hf. discriminate.
Qed.

Lemma update_event_replaces_document_witness :
  fst (UpdateEvent clockB eventPushed dbAfterAdd) = None /\
  readings (snd (UpdateEvent clockB eventPushed dbAfterAdd)) = readings dbAfterAdd.
Proof.
  pose proof (update_event_replaces_document_and_leaves_readings_collection
                clockB eventPushed dbAfterAdd) as H.
  cbv zeta in H. destruct H as [H1 _].
  split; [reflexivity|exact H1].
Defined.

(** C8 as stated fails on its last part: the readings that a stored
    event embeds do change when the caller's event carries other
    readings.  An event added with one reading and then updated from an
    event without readings is loaded back with no reading at all, while
    the readings collection still holds the reading. *)
Lemma update_event_changes_embedded_readings :
  List.length (Event.Readings (fst (fst (getEvent (byObjectId (Event.ID eventAdded))
                                                   dbAfterAdd)))) = 1 /\
  fst (UpdateEvent clockB eventPushed dbAfterAdd) = None /\
  Event.Readings (fst (fst (getEvent (byObjectId (Event.ID eventAdded))
                                     (snd (UpdateEvent clockB eventPushed dbAfterAdd))))) = [] /\
  snd (fst (getEvent (byObjectId (Event.ID eventAdded))
                     (snd (UpdateEvent clockB eventPushed dbAfterAdd)))) = None /\
  List.length (readings (snd (UpdateEvent clockB eventPushed dbAfterAdd))) = 1.
Proof. split_all; vm_compute; reflexivity. Qed.

(* --------------------------------------------------------------------- *)
(** *** Events older than an age *)
(* --------------------------------------------------------------------- *)

Lemma int64_small (z : Z) : (- 2 ^ 63 <= z < 2 ^ 63)%Z -> int64 z = z.
Proof. intros H. unfold int64. rewrite Z.mod_small; lia. Qed.

Lemma nowMillis_int64 (t : Z) :
  (- 2 ^ 63 <= t < 2 ^ 63)%Z -> (- 2 ^ 63 <= nowMillis t < 2 ^ 63)%Z.
Proof.
  intros H. unfold nowMillis.
  destruct (Z.le_gt_cases 0 t) as [Hpos|Hneg].
  - rewrite Z.quot_div_nonneg by lia.
    pose proof (Z.div_pos t 1000000 Hpos ltac:(lia)).
    pose proof (Z.div_le_upper_bound t 1000000 t ltac:(lia) ltac:(lia)). lia.
  - pose proof (Z.quot_opp_l t 1000000 ltac:(lia)) as Ho.
    assert (Hq : (0 <= Z.quot (- t) 1000000 <= - t)%Z).
    { rewrite Z.quot_div_nonneg by lia. split.
      - apply Z.div_pos; lia.
      - apply Z.div_le_upper_bound; lia. }
    lia.
Qed.

Lemma dereference_stored (rs : list Reading.t) (refs : list ObjectId) :
  (forall id, List.In id refs -> List.In id (map Reading.Id rs)) ->
  exists l, dereference rs refs = Some l /\ map Reading.Id l = refs.
Proof.
  induction refs as [|id refs IH]; intros H.
  - now exists [].
  - destruct IH as [l [Hl Hids]]; [intros x Hx; apply H; now right|].
    simpl. rewrite Hl.
    destruct (find (byId readingsC id) rs) as [r|] eqn:Hf.
    + exists (r :: l). split; [reflexivity|]. simpl. f_equal; [|assumption].
      apply find_some in Hf as [_ Hr]. unfold byId, ObjectId_eqb in Hr.
      now apply String.eqb_eq in Hr.
    + exfalso. specialize (H id (or_introl eq_refl)).
      apply in_map_iff in H as [r [Hr Hin]].
      pose proof (find_none _ _ Hf r Hin) as Hn.
      unfold byId, ObjectId_eqb in Hn. cbn [oid readingsC] in Hn.
      rewrite Hr, String.eqb_refl in Hn. discriminate.
Qed.

Lemma AddEvent_quiet (t : Z) (e : Event.t) (db : Database) :
  quiet 3 db = true ->
  fst (AddEvent t e db)
  = (added (nowMillis t) (counter db) e, objectIdOfCounter (counter db), None) /\
  events (snd (AddEvent t e db))
  = (events db ++ [MongoEvent.ofEvent (added (nowMillis t) (counter db) e)])%list /\
  readings (snd (AddEvent t e db))
  = (readings db ++ Event.Readings (added (nowMillis t) (counter db) e))%list /\
  nextOutcome (snd (AddEvent t e db)) = None.
Proof.
  intros Hq. rewrite AddEvent_run. cbv zeta.
  destruct e as [id0 pushed device created modified rs].
  cbn [Event.Readings Event.Device].
  destruct db as [ev rd vd cnt pend tr]. unfold quiet in Hq. cbn [pending counter] in *.
  destruct rs as [|r rs].
  - unfold added. cbn [Event.Readings stamped].
    destruct pend as [|[msg|] [|[msg'|] rest]]; try discriminate Hq;
      unfold Insert, nextOutcome; run; rewrite ?app_nil_r; now repeat split.
  - unfold added. cbn [Event.Readings Event.Device Event.ID].
    set (ui := stamped (nowMillis t) device (N.succ cnt) (r :: rs)). clearbody ui.
    destruct pend as [|[msg|] [|[msg'|] [|[msg''|] rest]]]; try discriminate Hq;
      unfold Insert, nextOutcome; run; now repeat split.
Qed.

(** C9, as amended.  Take a store with no event and a driver that lets
    the calls through; add an event at clock reading [t1], then call
    [EventsOlderThanAge] with age 0 at clock reading [t2].  The query
    keeps the events created strictly before [t2], in milliseconds: no
    error is returned; the result is empty when the millisecond reading
    has not advanced since the add, and it is the event just added (with
    its identifier, creation time and readings) as soon as the
    millisecond reading has advanced. *)
Theorem events_older_than_age_zero_after_add
  (t1 t2 : Z) (e : Event.t) (db : Database)
  (Hquiet : quiet 3 db = true)
  (Hfresh : events db = [])
  (Hclock : (- 2 ^ 63 <= t2 < 2 ^ 63)%Z) :
  let e' := fst (fst (fst (AddEvent t1 e db))) in
  let res := EventsOlderThanAge t2 0 (snd (AddEvent t1 e db)) in
  snd (fst res) = None /\
  Event.Created e' = nowMillis t1 /\
  ((nowMillis t2 <= nowMillis t1)%Z -> fst (fst res) = []) /\
  ((nowMillis t1 < nowMillis t2)%Z ->
   exists e1,
     fst (fst res) = [e1] /\
     Event.ID e1 = Event.ID e' /\
     Event.Created e1 = Event.Created e' /\
     Event.Device e1 = Event.Device e' /\
     map Reading.Id (Event.Readings e1) = map Reading.Id (Event.Readings e')).
Proof.
  cbv zeta.
  destruct (AddEvent_quiet t1 e db Hquiet) as [Hres [Hev [Hrd Hn]]].
  rewrite Hres. cbn [fst snd].
  set (db1 := snd (AddEvent t1 e db)) in *.
  set (e' := added (nowMillis t1) (counter db) e) in *.
  unfold EventsOlderThanAge, getEvents, FindAll, bind. rewrite issue_run, Hn.
  unfold gets, ret. cbn [fst snd docs eventsC afterCall events readings].
  rewrite Hev, Hfresh, Hrd. cbn [app filter].
  rewrite Z.sub_0_r, (int64_small _ (nowMillis_int64 t2 Hclock)).
  assert (Hsel : selects eventsC [("created", [Lt (nowMillis t2)])] (MongoEvent.ofEvent e')
                 = Z.ltb (nowMillis t1) (nowMillis t2)).
  { unfold selects. cbn. now rewrite !andb_true_r. }
  rewrite Hsel.
  destruct (dereference_stored (readings db ++ Event.Readings e')
              (map Reading.Id (Event.Readings e'))) as [l [Hl Hids]].
  { intros id Hid. rewrite map_app. apply in_or_app. now right. }
  destruct (Z.ltb (nowMillis t1) (nowMillis t2)) eqn:Hlt.
  - apply Z.ltb_lt in Hlt. cbn [loadEvents]. unfold loadEvent.
    cbn [MongoEvent.Readings MongoEvent.ofEvent]. rewrite Hl. cbn [fst snd].
    split_all; try reflexivity.
    + intros Hle. lia.
    + intros _. eexists. split; [reflexivity|]. cbn. now repeat split.
  - apply Z.ltb_ge in Hlt. cbn [loadEvents fst snd].
    split_all; try reflexivity. intros Hgt. lia.
Qed.

Lemma events_older_than_age_zero_after_add_witness :
  fst (fst (EventsOlderThanAge clockA 0 dbAfterAdd)) = [].
Proof.
  pose proof (events_older_than_age_zero_after_add clockA clockA eventD1 emptyDatabase
                eq_refl eq_refl) as H.
  cbv zeta in H.
  destruct H as [_ [_ [H _]]].
  - unfold clockA. lia.
  - apply H. lia.
Defined.

(** C9 as stated fails as soon as the clock moves on between the two
    calls: the event added at [clockA], whose creation time is not zero,
    is returned by [EventsOlderThanAge] with age 0 one millisecond
    later. *)
Lemma events_older_than_age_zero_returns_event_just_added :
  Event.Created eventAdded <> 0%Z /\
  snd (fst (AddEvent clockA eventD1 emptyDatabase)) = None /\
  fst (EventsOlderThanAge clockB 0 dbAfterAdd) = ([eventAdded], None) /\
  fst (fst (EventsOlderThanAge clockB 0 dbAfterAdd)) <> [].
Proof.
  split_all; try (vm_compute; reflexivity); intros H; vm_compute in H; discriminate H.
Qed.

(* --------------------------------------------------------------------- *)
(** *** Adding a value descriptor *)
(* --------------------------------------------------------------------- *)

Lemma find_pointwise {A : Type} (p p' : A -> bool) (l : list A) :
  (forall a, p a = p' a) -> find p l = find p' l.
Proof.
  intros E. induction l as [|a l IH]; [reflexivity|]. simpl. now rewrite E, IH.
Qed.

Lemma upsertInto_matched {D : Type} (C : Collection D) (q : M) (d : D) (l : list D) :
  forall x,
    find (selects C q) l = Some x ->
    oid C d = EmptyString \/ oid C d = oid C x ->
    exists l1 l2,
      l = (l1 ++ x :: l2)%list /\
      (forall y, List.In y l1 -> selects C q y = false) /\
      upsertInto C q d l = Matched (l1 ++ withOid C (oid C x) d :: l2)%list.
Proof.
  induction l as [|a l IH]; intros x Hf Hid; simpl in Hf; [discriminate|].
  simpl. destruct (selects C q a) eqn:Ha.
  - inversion Hf; subst. exists [], l. split; [reflexivity|]. split; [intros y []|].
    assert (E : ObjectId_eqb (oid C d) EmptyString || ObjectId_eqb (oid C d) (oid C x) = true).
    { unfold ObjectId_eqb. destruct Hid as [-> | ->].
      - reflexivity.
      - rewrite String.eqb_refl. apply orb_true_r. }
    now rewrite E.
  - destruct (IH x Hf Hid) as [l1 [l2 [E [Hl1 Hu]]]].
    exists (a :: l1), l2. subst. split; [reflexivity|]. split.
    + intros y [<-|Hy]; [assumption|now apply Hl1].
    + now rewrite Hu.
Qed.

(** What [AddValueDescriptor] does when the name is already stored: the
    stored document is overwritten with the caller's descriptor (only its
    [_id] is kept), and [ErrNotUnique] is returned. *)
Lemma AddValueDescriptor_on_stored_name
  (t : Z) (v d : ValueDescriptor.t) (db : Database) :
  nextOutcome db = None ->
  named (valueDescriptors db) (ValueDescriptor.Name v) = Some d ->
  ValueDescriptor.Id v = EmptyString \/ ValueDescriptor.Id v = ValueDescriptor.Id d ->
  exists l1 l2,
    valueDescriptors db = (l1 ++ d :: l2)%list /\
    (forall y, List.In y l1 -> ValueDescriptor.Name y <> ValueDescriptor.Name v) /\
    fst (AddValueDescriptor t v db) = (ValueDescriptor.Id v, Some ErrNotUnique) /\
    valueDescriptors (snd (AddValueDescriptor t v db))
    = (l1 ++ ValueDescriptor.setId (ValueDescriptor.Id d)
               (ValueDescriptor.setCreated (nowMillis t) v) :: l2)%list.
Proof.
  intros Hn Hnamed Hid.
  unfold named in Hnamed.
  rewrite (find_pointwise _ (selects valueDescriptorsC (byName (ValueDescriptor.Name v))))
    in Hnamed by (intros a; symmetry; apply selects_byName).
  destruct (upsertInto_matched valueDescriptorsC (byName (ValueDescriptor.Name v))
              (ValueDescriptor.setCreated (nowMillis t) v) (valueDescriptors db) d Hnamed Hid)
    as [l1 [l2 [E [Hl1 Hu]]]].
  exists l1, l2. split; [assumption|]. split.
  { intros y Hy. specialize (Hl1 y Hy). rewrite selects_byName in Hl1.
    apply String.eqb_neq in Hl1. congruence. }
  unfold AddValueDescriptor, Upsert, bind. rewrite issue_run, Hn.
  unfold gets, modify, ret.
  cbn [ValueDescriptor.Name ValueDescriptor.setCreated docs valueDescriptorsC afterCall
       valueDescriptors].
  fold (byName (ValueDescriptor.Name v)).
  change (ValueDescriptor.mk (ValueDescriptor.Id v) (nowMillis t) (ValueDescriptor.Modified v)
            (ValueDescriptor.Name v) (ValueDescriptor.UomLabel v) (ValueDescriptor.Labels v)
            (ValueDescriptor.Type_ v))
    with (ValueDescriptor.setCreated (nowMillis t) v).
  rewrite Hu. cbn. split; reflexivity.
Qed.

Lemma upsertInto_names (v : ValueDescriptor.t) (l : list ValueDescriptor.t) :
  match upsertInto valueDescriptorsC (byName (ValueDescriptor.Name v)) v l with
  | Matched l' => map ValueDescriptor.Name l' = map ValueDescriptor.Name l
  | IdAltered => True
  | Absent => ~ List.In (ValueDescriptor.Name v) (map ValueDescriptor.Name l)
  end.
Proof.
  induction l as [|a l IH]; [simpl; tauto|].
  cbn [upsertInto]. rewrite selects_byName.
  destruct (String.eqb (ValueDescriptor.Name v) (ValueDescriptor.Name a)) eqn:Ha.
  - apply String.eqb_eq in Ha.
    destruct (ObjectId_eqb (oid valueDescriptorsC v) EmptyString
              || ObjectId_eqb (oid valueDescriptorsC v) (oid valueDescriptorsC a));
      [|exact I].
    simpl. now rewrite Ha.
  - apply String.eqb_neq in Ha.
    destruct (upsertInto valueDescriptorsC (byName (ValueDescriptor.Name v)) v l) as [l'| |].
    + simpl. now rewrite IH.
    + exact I.
    + intros [E|Hin]; [congruence|contradiction].
Qed.

(** The name-uniqueness invariant of the data model survives
    [AddValueDescriptor], whatever its outcome: a second document with a
    stored name is never created. *)
Lemma AddValueDescriptor_keeps_names_unique (t : Z) (v : ValueDescriptor.t) (db : Database) :
  NoDup (map ValueDescriptor.Name (valueDescriptors db)) ->
  NoDup (map ValueDescriptor.Name (valueDescriptors (snd (AddValueDescriptor t v db)))).
Proof.
  intros Hnd. unfold AddValueDescriptor, Upsert, bind. rewrite issue_run.
  destruct (nextOutcome db) as [err|]; unfold ret; [exact Hnd|].
  unfold gets, modify.
  cbn [ValueDescriptor.Name ValueDescriptor.setCreated docs valueDescriptorsC afterCall
       valueDescriptors].
  pose proof (upsertInto_names (ValueDescriptor.setCreated (nowMillis t) v)
                (valueDescriptors db)) as Hu.
  cbn [ValueDescriptor.Name ValueDescriptor.setCreated] in Hu.
  fold (byName (ValueDescriptor.Name v)).
  change (ValueDescriptor.mk (ValueDescriptor.Id v) (nowMillis t) (ValueDescriptor.Modified v)
            (ValueDescriptor.Name v) (ValueDescriptor.UomLabel v) (ValueDescriptor.Labels v)
            (ValueDescriptor.Type_ v))
    with (ValueDescriptor.setCreated (nowMillis t) v) in *.
  destruct (upsertInto valueDescriptorsC (byName (ValueDescriptor.Name v))
              (ValueDescriptor.setCreated (nowMillis t) v) (valueDescriptors db))
    as [l'| |].
  - cbn. now rewrite Hu.
  - exact Hnd.
  - unfold NewObjectId.
    destruct (ObjectId_eqb (oid valueDescriptorsC (ValueDescriptor.setCreated (nowMillis t) v))
                EmptyString); cbn; rewrite map_app; cbn;
      (apply NoDup_app; [exact Hnd|constructor; [intros []|constructor]|]);
      intros a Ha [<-|[]]; contradiction.
Qed.

(** C1, evaluated on the code.  Adding a second descriptor named "temp"
    to a store that already holds one returns [ErrNotUnique] and leaves a
    single document with that name, as the claim says; but the stored
    document is no longer the one that was there: it has taken the unit,
    the labels, the type and the creation time of the rejected
    descriptor. *)
Theorem add_value_descriptor_duplicate_name_overwrites_stored_document :
  map ValueDescriptor.UomLabel (valueDescriptors dbWithTemp) = ["C"] /\
  snd (fst (AddValueDescriptor clockB vdTempAgain dbWithTemp)) = Some ErrNotUnique /\
  map ValueDescriptor.Name
      (valueDescriptors (snd (AddValueDescriptor clockB vdTempAgain dbWithTemp))) = ["temp"] /\
  map ValueDescriptor.UomLabel
      (valueDescriptors (snd (AddValueDescriptor clockB vdTempAgain dbWithTemp))) = ["F"] /\
  map ValueDescriptor.Labels
      (valueDescriptors (snd (AddValueDescriptor clockB vdTempAgain dbWithTemp)))
  = [["outdoor"]] /\
  map ValueDescriptor.Id
      (valueDescriptors (snd (AddValueDescriptor clockB vdTempAgain dbWithTemp)))
  = map ValueDescriptor.Id (valueDescriptors dbWithTemp) /\
  valueDescriptors (snd (AddValueDescriptor clockB vdTempAgain dbWithTemp))
  <> valueDescriptors dbWithTemp.
Proof.
  split_all; try (vm_compute; reflexivity). intros H; vm_compute in H; discriminate H.
Qed.

(* --------------------------------------------------------------------- *)
(** *** The contract on concrete stores *)
(* --------------------------------------------------------------------- *)

Lemma limit_zero_is_empty_and_nonzero_limit_truncates_witness :
  ReadingsByDevice "d1" 0 dbTwoReadings = ([], None, dbTwoReadings) /\
  List.length (fst (fst (ReadingsByDevice "d1" 1 dbTwoReadings))) <= 1 /\
  snd (fst (ReadingsByDevice "d1" 1 dbTwoReadings)) = None.
Proof.
  pose proof (limit_zero_is_empty_and_nonzero_limit_truncates dbTwoReadings 0
                "d1" "temp" "d1" "temp" ["temp"] 0 0) as [H0 _].
  pose proof (limit_zero_is_empty_and_nonzero_limit_truncates dbTwoReadings 1
                "d1" "temp" "d1" "temp" ["temp"] 0 0) as [_ H1].
  specialize (H0 eq_refl). specialize (H1 ltac:(discriminate)).
  destruct H0 as [_ [_ [H0 _]]]. destruct H1 as [_ [_ [[Hlen Hprefix] _]]].
  split; [exact H0|]. split; [exact Hlen|].
  apply Hprefix. reflexivity.
Defined.

Lemma value_descriptors_by_name_witness :
  fst (ValueDescriptorsByName ["temp"; "missing"; "temp"] dbWithTemp)
  = (valueDescriptors dbWithTemp ++ valueDescriptors dbWithTemp, None)%list /\
  fst (ValueDescriptorsByName ["temp"; "missing"; "temp"]
         (mkDatabase [] [] (valueDescriptors dbWithTemp) 1 [None; Some "i/o timeout"] []))
  = ([], Some (driverError "i/o timeout")).
Proof.
  pose proof (value_descriptors_by_name_skips_missing_and_aborts_on_failure
                ["temp"; "missing"; "temp"] dbWithTemp) as [Hall _].
  pose proof (value_descriptors_by_name_skips_missing_and_aborts_on_failure
                ["temp"; "missing"; "temp"]
                (mkDatabase [] [] (valueDescriptors dbWithTemp) 1 [None; Some "i/o timeout"] []))
    as [_ Habort].
  specialize (Hall eq_refl).
  specialize (Habort 1 "i/o timeout" [] eq_refl ltac:(simpl; lia)).
  split.
  - rewrite Hall. reflexivity.
  - rewrite Habort. reflexivity.
Defined.


Lemma add_event_stamps_event_and_readings_witness :
  map Reading.Created (Event.Readings eventAdded) = [Event.Created eventAdded] /\
  map Reading.Device (Event.Readings eventAdded) = ["d1"] /\
  Event.Created eventAdded = 1700000000123%Z.
Proof.
  pose proof (add_event_stamps_event_and_readings clockA eventD1 emptyDatabase) as H.
  cbv zeta in H. destruct H as [[_ [_ [Hc _]]] _].
  split; [reflexivity|]. split; [reflexivity|exact Hc].
Defined.

(* ===================================================================== *)
(** ** Further properties of the client *)
(* ===================================================================== *)

(* --------------------------------------------------------------------- *)
(** *** Deleting by identifier *)
(* --------------------------------------------------------------------- *)

Lemma removeFirst_None {D : Type} (p : D -> bool) (l : list D) :
  removeFirst p l = None <-> (forall x, List.In x l -> p x = false).
Proof.
  induction l as [|a l IH]; simpl.
  - split; [intros _ x []|reflexivity].
  - destruct (p a) eqn:Ha.
    + split; [discriminate|]. intros H. specialize (H a (or_introl eq_refl)). congruence.
    + destruct (removeFirst p l) as [l'|].
      * split; [discriminate|]. intros H.
        assert (E : Some l' = None) by (apply IH; intros x Hx; apply H; now right).
        discriminate E.
      * split; [|reflexivity]. intros _ x [<-|Hx]; [assumption|].
        now apply (proj1 IH).
Qed.

Lemma removeFirst_Some {D : Type} (p : D -> bool) (l : list D) :
  forall l',
    removeFirst p l = Some l' ->
    exists l1 x l2,
      l = (l1 ++ x :: l2)%list /\ p x = true /\
      (forall y, List.In y l1 -> p y = false) /\
      l' = (l1 ++ l2)%list.
Proof.
  induction l as [|a l IH]; intros l' H; simpl in H; [discriminate|].
  destruct (p a) eqn:Ha.
  - inversion H; subst. exists [], a, l'. repeat split; try assumption. intros y [].
  - destruct (removeFirst p l) as [l0|]; [|discriminate].
    inversion H; subst. destruct (IH l0 eq_refl) as [l1 [x [l2 [E [Hx [Hl1 E']]]]]].
    exists (a :: l1), x, l2. subst. repeat split; try assumption.
    intros y [<-|Hy]; [assumption|now apply Hl1].
Qed.

Lemma deleteById_run {D : Type} (col : Collection D) (id : string) (db : Database) :
  IsObjectIdHex id = true ->
  deleteById id col db
  = match nextOutcome db with
    | Some err => (orNotFound (Some err), afterCall (CRemoveId (cname col) (ObjectIdHex id)) db)
    | None =>
        match removeFirst (byId col (ObjectIdHex id))
                (docs col (afterCall (CRemoveId (cname col) (ObjectIdHex id)) db)) with
        | Some l => (None, store col l (afterCall (CRemoveId (cname col) (ObjectIdHex id)) db))
        | None => (Some ErrNotFound, afterCall (CRemoveId (cname col) (ObjectIdHex id)) db)
        end
    end.
Proof.
  intros Hhex. unfold deleteById. rewrite Hhex. cbn [negb].
  unfold RemoveId, bind. rewrite issue_run.
  destruct (nextOutcome db) as [err|]; unfold ret; [reflexivity|].
  unfold gets, modify. destruct (removeFirst _ _); reflexivity.
Qed.

Lemma removeFirst_deletesFirst {D : Type} (idOf : D -> ObjectId) (id : ObjectId)
  (l : list D) :
  deletesFirst idOf id l
    (match removeFirst (fun d => ObjectId_eqb (idOf d) id) l with
     | Some l' => l'
     | None => l
     end)
    (match removeFirst (fun d => ObjectId_eqb (idOf d) id) l with
     | Some _ => None
     | None => Some ErrNotFound
     end).
Proof.
  unfold deletesFirst.
  destruct (removeFirst (fun d => ObjectId_eqb (idOf d) id) l) as [l'|] eqn:Hr.
  - apply removeFirst_Some in Hr as [l1 [d [l2 [E [Hd [Hl1 E']]]]]].
    unfold ObjectId_eqb in Hd, Hl1. apply String.eqb_eq in Hd. split.
    + intros Hno. exfalso. apply (Hno d); [|assumption].
      rewrite E. apply in_or_app. right. now left.
    + intros _. exists l1, d, l2. repeat split; try assumption.
      intros y Hy. specialize (Hl1 y Hy). now apply String.eqb_neq in Hl1.
  - split; [now split|]. intros [d [Hin Hid]]. exfalso.
    pose proof (proj1 (removeFirst_None _ _) Hr d Hin) as Hf. simpl in Hf.
    unfold ObjectId_eqb in Hf. rewrite Hid, String.eqb_refl in Hf. discriminate.
Qed.

(** X1.  For a well-formed identifier string and a driver that lets the
    call through, each delete by identifier removes from its own
    collection the first document that carries the identifier and
    nothing else, or answers [ErrNotFound] and removes nothing when no
    document carries it.  The two other collections are never touched:
    deleting an event leaves its readings in the readings collection, and
    deleting a value descriptor goes through while readings still carry
    its name. *)
Theorem delete_by_id_removes_one_document_of_its_collection
  (id : string) (db : Database)
  (Hhex : IsObjectIdHex id = true) (Hquiet : nextOutcome db = None) :
  (deletesFirst MongoEvent.ID (ObjectIdHex id) (events db)
     (events (snd (DeleteEventById id db))) (fst (DeleteEventById id db)) /\
   readings (snd (DeleteEventById id db)) = readings db /\
   valueDescriptors (snd (DeleteEventById id db)) = valueDescriptors db) /\
  (deletesFirst Reading.Id (ObjectIdHex id) (readings db)
     (readings (snd (DeleteReadingById id db))) (fst (DeleteReadingById id db)) /\
   events (snd (DeleteReadingById id db)) = events db /\
   valueDescriptors (snd (DeleteReadingById id db)) = valueDescriptors db) /\
  (deletesFirst ValueDescriptor.Id (ObjectIdHex id) (valueDescriptors db)
     (valueDescriptors (snd (DeleteValueDescriptorById id db)))
     (fst (DeleteValueDescriptorById id db)) /\
   events (snd (DeleteValueDescriptorById id db)) = events db /\
   readings (snd (DeleteValueDescriptorById id db)) = readings db).
Proof.
  unfold DeleteEventById, DeleteReadingById, DeleteValueDescriptorById.
  rewrite Hhex. cbn [negb]. rewrite !deleteById_run by assumption. rewrite Hquiet.
  cbn [docs store cname eventsC readingsC valueDescriptorsC afterCall events readings
       valueDescriptors].
  pose proof (removeFirst_deletesFirst MongoEvent.ID (ObjectIdHex id) (events db)) as He.
  pose proof (removeFirst_deletesFirst Reading.Id (ObjectIdHex id) (readings db)) as Hr.
  pose proof (removeFirst_deletesFirst ValueDescriptor.Id (ObjectIdHex id)
                (valueDescriptors db)) as Hv.
  unfold byId. cbn [oid eventsC readingsC valueDescriptorsC].
  destruct (removeFirst (fun d => ObjectId_eqb (MongoEvent.ID d) (ObjectIdHex id)) (events db));
    destruct (removeFirst (fun d => ObjectId_eqb (Reading.Id d) (ObjectIdHex id)) (readings db));
    destruct (removeFirst (fun d => ObjectId_eqb (ValueDescriptor.Id d) (ObjectIdHex id))
                (valueDescriptors db));
    cbn [fst snd setEvents setReadings setValueDescriptors afterCall events readings
         valueDescriptors];
    split_all; first [assumption | reflexivity].
Qed.

(* --------------------------------------------------------------------- *)
(** *** Looking a document up by identifier *)
(* --------------------------------------------------------------------- *)

Lemma FindOne_run {D : Type} (C : Collection D) (q : M) (db : Database) :
  FindOne C q db
  = (match nextOutcome db with
     | Some err => (None, Some err)
     | None =>
         match find (selects C q) (docs C (afterCall (CFind (cname C) q) db)) with
         | Some d => (Some d, None)
         | None => (None, Some mgoErrNotFound)
         end
     end,
     afterCall (CFind (cname C) q) db).
Proof.
  unfold FindOne, bind. rewrite issue_run.
  destruct (nextOutcome db) as [err|]; unfold ret, gets; [reflexivity|].
  rewrite <- hd_filter.
  destruct (filter (selects C q) (docs C (afterCall (CFind (cname C) q) db))); reflexivity.
Qed.

Lemma selects_byObjectId_event (id : ObjectId) (d : MongoEvent.doc) :
  selects eventsC (byObjectId id) d = ObjectId_eqb (MongoEvent.ID d) id.
Proof.
  unfold selects, byObjectId. cbn. rewrite !andb_true_r.
  unfold ObjectId_eqb. apply String.eqb_sym.
Qed.

Lemma selects_byObjectId_reading (id : ObjectId) (r : Reading.t) :
  selects readingsC (byObjectId id) r = ObjectId_eqb (Reading.Id r) id.
Proof.
  unfold selects, byObjectId. cbn. rewrite !andb_true_r.
  unfold ObjectId_eqb. apply String.eqb_sym.
Qed.

Lemma selects_byObjectId_valueDescriptor (id : ObjectId) (v : ValueDescriptor.t) :
  selects valueDescriptorsC (byObjectId id) v = ObjectId_eqb (ValueDescriptor.Id v) id.
Proof.
  unfold selects, byObjectId. cbn. rewrite !andb_true_r.
  unfold ObjectId_eqb. apply String.eqb_sym.
Qed.

Lemma find_absent {A : Type} (p : A -> bool) (l : list A) :
  (forall x, List.In x l -> p x = false) -> find p l = None.
Proof.
  induction l as [|a l IH]; intros H; [reflexivity|]. simpl.
  rewrite (H a (or_introl eq_refl)). apply IH. intros x Hx. apply H. now right.
Qed.

Lemma removeFirst_gone {D : Type} (idOf : D -> ObjectId) (id : ObjectId) (l : list D) :
  NoDup (map idOf l) ->
  forall x,
    List.In x (match removeFirst (fun d => ObjectId_eqb (idOf d) id) l with
               | Some l' => l'
               | None => l
               end) ->
    ObjectId_eqb (idOf x) id = false.
Proof.
  intros Hnd x Hx.
  destruct (removeFirst (fun d => ObjectId_eqb (idOf d) id) l) as [l'|] eqn:Hr.
  - apply removeFirst_Some in Hr as [l1 [d [l2 [E [Hd [Hl1 E']]]]]]. subst.
    unfold ObjectId_eqb in *. apply String.eqb_eq in Hd.
    rewrite map_app in Hnd. cbn [map] in Hnd. apply NoDup_remove_2 in Hnd.
    apply String.eqb_neq. intros E. apply Hnd. rewrite <- map_app.
    rewrite Hd, <- E. now apply in_map.
  - exact (proj1 (removeFirst_None _ _) Hr x Hx).
Qed.

Lemma quiet_two (c : call) (db : Database) :
  quiet 2 db = true ->
  nextOutcome db = None /\ nextOutcome (afterCall c db) = None.
Proof.
  intros H. apply (quiet_step 1 c) in H as [H1 H2]. split; [assumption|].
  now apply (quiet_step 0 c) in H2 as [H2 _].
Qed.

(** X2.  On collections whose documents have pairwise distinct
    identifiers, and with the driver letting the two calls through, a
    delete by identifier followed by a get with the same identifier
    string answers [ErrNotFound], for events, readings and value
    descriptors alike, whether or not the delete found a document. *)
Theorem delete_then_get_by_id_is_not_found
  (id : string) (db : Database)
  (Hhex : IsObjectIdHex id = true)
  (Hquiet : quiet 2 db = true)
  (Hevents : NoDup (map MongoEvent.ID (events db)))
  (Hreadings : NoDup (map Reading.Id (readings db)))
  (Hdescriptors : NoDup (map ValueDescriptor.Id (valueDescriptors db))) :
  snd (fst (EventById id (snd (DeleteEventById id db)))) = Some ErrNotFound /\
  snd (fst (ReadingById id (snd (DeleteReadingById id db)))) = Some ErrNotFound /\
  snd (fst (ValueDescriptorById id (snd (DeleteValueDescriptorById id db))))
  = Some ErrNotFound.
Proof.
  unfold EventById, ReadingById, ValueDescriptorById, DeleteEventById, DeleteReadingById,
    DeleteValueDescriptorById.
  rewrite Hhex. cbn [negb]. rewrite !deleteById_run by assumption.
  fold (byObjectId (ObjectIdHex id)).
  split_all.
  - destruct (quiet_two (CRemoveId EVENTS_COLLECTION (ObjectIdHex id)) db Hquiet) as [Hn Hn'].
    rewrite Hn. unfold getEvent, bind. rewrite FindOne_run.
    pose proof (removeFirst_gone MongoEvent.ID (ObjectIdHex id) (events db) Hevents) as Hgone.
    unfold byId. cbn [oid docs store cname eventsC afterCall events].
    destruct (removeFirst (fun d => ObjectId_eqb (MongoEvent.ID d) (ObjectIdHex id)) (events db))
      as [l|]; cbn [snd]; unfold nextOutcome in *; cbn [pending afterCall setEvents] in *;
      rewrite Hn'; cbn [events setEvents];
      rewrite (find_absent (selects eventsC (byObjectId (ObjectIdHex id))))
        by (intros x Hx; rewrite selects_byObjectId_event; now apply Hgone);
      reflexivity.
  - destruct (quiet_two (CRemoveId READINGS_COLLECTION (ObjectIdHex id)) db Hquiet) as [Hn Hn'].
    rewrite Hn. unfold getReading, bind. rewrite FindOne_run.
    pose proof (removeFirst_gone Reading.Id (ObjectIdHex id) (readings db) Hreadings) as Hgone.
    unfold byId. cbn [oid docs store cname readingsC afterCall readings].
    destruct (removeFirst (fun d => ObjectId_eqb (Reading.Id d) (ObjectIdHex id)) (readings db))
      as [l|]; cbn [snd]; unfold nextOutcome in *; cbn [pending afterCall setReadings] in *;
      rewrite Hn'; cbn [readings setReadings];
      rewrite (find_absent (selects readingsC (byObjectId (ObjectIdHex id))))
        by (intros x Hx; rewrite selects_byObjectId_reading; now apply Hgone);
      reflexivity.
  - destruct (quiet_two (CRemoveId VALUE_DESCRIPTOR_COLLECTION (ObjectIdHex id)) db Hquiet)
      as [Hn Hn'].
    rewrite Hn. unfold getValueDescriptor, bind. rewrite FindOne_run.
    pose proof (removeFirst_gone ValueDescriptor.Id (ObjectIdHex id) (valueDescriptors db)
                  Hdescriptors) as Hgone.
    unfold byId. cbn [oid docs store cname valueDescriptorsC afterCall valueDescriptors].
    destruct (removeFirst (fun d => ObjectId_eqb (ValueDescriptor.Id d) (ObjectIdHex id))
                (valueDescriptors db))
      as [l|]; cbn [snd]; unfold nextOutcome in *;
      cbn [pending afterCall setValueDescriptors] in *;
      rewrite Hn'; cbn [valueDescriptors setValueDescriptors];
      rewrite (find_absent (selects valueDescriptorsC (byObjectId (ObjectIdHex id))))
        by (intros x Hx; rewrite selects_byObjectId_valueDescriptor; now apply Hgone);
      reflexivity.
Qed.

(* --------------------------------------------------------------------- *)
(** *** Scrubbing *)
(* --------------------------------------------------------------------- *)

(** X3.  [ScrubAllEvents] empties the readings collection first and the
    events collection second, and never touches the value descriptors.
    If the first removal fails its error is returned, the second removal
    is not attempted and nothing has changed.  If the first goes through
    and the second fails, the error is returned with the readings already
    gone and the events all still there.  If both go through, both
    collections are empty and nil is returned. *)
Theorem scrub_all_events_removes_readings_then_events (db : Database) :
  let res := ScrubAllEvents db in
  let db1 := afterCall (CRemoveAll READINGS_COLLECTION) db in
  valueDescriptors (snd res) = valueDescriptors db /\
  (nextOutcome db <> None ->
   fst res = nextOutcome db /\ sameData db (snd res) /\
   trace (snd res) = (trace db ++ [CRemoveAll READINGS_COLLECTION])%list) /\
  (nextOutcome db = None ->
   fst res = nextOutcome db1 /\
   readings (snd res) = [] /\
   trace (snd res)
   = (trace db ++ [CRemoveAll READINGS_COLLECTION; CRemoveAll EVENTS_COLLECTION])%list /\
   (nextOutcome db1 <> None -> events (snd res) = events db) /\
   (nextOutcome db1 = None -> events (snd res) = [])).
Proof.
  cbv zeta. destruct db as [ev rd vd cnt pend tr].
  destruct pend as [|[msg|] [|[msg'|] rest]];
    unfold ScrubAllEvents, RemoveAll, nextOutcome, afterCall, sameData; run;
    rewrite <- ?app_assoc;
    split_all; try reflexivity; try congruence; intros; try congruence; now repeat split.
Qed.

(** X4.  [ScrubAllValueDescriptors] leaves events and readings alone; when
    the driver lets it through the collection is empty afterwards, so
    that the listing of all value descriptors returns the empty list and
    a lookup by any name answers [ErrNotFound]; when the driver fails,
    its error is returned and every descriptor is still there. *)
Theorem scrub_all_value_descriptors_empties_the_collection (db : Database) (name : string) :
  let res := ScrubAllValueDescriptors db in
  events (snd res) = events db /\
  readings (snd res) = readings db /\
  fst res = nextOutcome db /\
  (nextOutcome db <> None -> valueDescriptors (snd res) = valueDescriptors db) /\
  (nextOutcome db = None ->
   valueDescriptors (snd res) = [] /\
   (nextOutcome (snd res) = None ->
    fst (ValueDescriptors (snd res)) = ([], None) /\
    fst (ValueDescriptorByName name (snd res)) = (ValueDescriptor.zero, Some ErrNotFound))).
Proof.
  cbv zeta. destruct db as [ev rd vd cnt pend tr].
  destruct pend as [|[msg|] [|[msg'|] rest]];
    unfold ScrubAllValueDescriptors, RemoveAll, ValueDescriptors, getValueDescriptors,
      ValueDescriptorByName, getValueDescriptor, FindAll, FindOne, nextOutcome;
    run; split_all; try reflexivity; try congruence; intros; try congruence;
    now repeat split.
Qed.

(* --------------------------------------------------------------------- *)
(** *** Adding and reading back *)
(* --------------------------------------------------------------------- *)

Lemma find_app_absent {A : Type} (p : A -> bool) (l1 l2 : list A) :
  (forall x, List.In x l1 -> p x = false) -> find p (l1 ++ l2) = find p l2.
Proof.
  induction l1 as [|a l1 IH]; intros H; [reflexivity|]. simpl.
  rewrite (H a (or_introl eq_refl)). apply IH. intros x Hx. apply H. now right.
Qed.

(** X5.  [AddReading] gives the reading the next identifier of the
    generator and the clock's reading as creation time, whatever the
    caller had put there, and returns that identifier.  If the insert
    fails the error comes back with the identifier and nothing is stored.
    If it goes through, the reading is appended to the readings
    collection and nothing else changes; and provided no stored reading
    already carried that identifier, [ReadingById] with a hex string of
    the returned identifier gives back exactly the stored reading. *)
Theorem add_reading_then_reading_by_id (t : Z) (r : Reading.t) (db : Database) :
  let res := AddReading t r db in
  let id := objectIdOfCounter (counter db) in
  let stored := Reading.setCreated (nowMillis t) (Reading.setId id r) in
  fst (fst res) = id /\
  snd (fst res) = nextOutcome db /\
  events (snd res) = events db /\
  valueDescriptors (snd res) = valueDescriptors db /\
  (nextOutcome db <> None -> readings (snd res) = readings db) /\
  (nextOutcome db = None -> readings (snd res) = (readings db ++ [stored])%list) /\
  (forall s,
      quiet 2 db = true ->
      (forall x, List.In x (readings db) -> Reading.Id x <> id) ->
      IsObjectIdHex s = true -> ObjectIdHex s = id ->
      fst (ReadingById s (snd res)) = (stored, None)).
Proof.
  cbv zeta. unfold AddReading, bind at 1. unfold NewObjectId. unfold bind, ret.
  rewrite Insert_run.
  change (nextOutcome (setCounter (N.succ (counter db)) db)) with (nextOutcome db).
  destruct (nextOutcome db) as [err|] eqn:Hn;
    cbn [fst snd Reading.Id Reading.setId Reading.setCreated counter setCounter
         docs store cname readingsC afterCall events readings valueDescriptors setReadings];
    split_all; try reflexivity; try congruence.
  - intros s Hq. apply (quiet_two (CInsert READINGS_COLLECTION 1)) in Hq as [Hq _]. congruence.
  - intros s Hq Hfresh Hhex Hid.
    apply (quiet_two (CInsert READINGS_COLLECTION 1)) in Hq as [_ Hq].
    unfold ReadingById. rewrite Hhex, Hid. cbn [negb].
    fold (byObjectId (objectIdOfCounter (counter db))).
    unfold getReading, bind. rewrite FindOne_run.
    unfold nextOutcome in *. cbn [pending afterCall setReadings setCounter] in *.
    rewrite Hq.
    cbn [docs readingsC afterCall readings setReadings setCounter].
    rewrite find_app_absent.
    + cbn [find]. rewrite selects_byObjectId_reading. unfold ObjectId_eqb.
      cbn [Reading.Id Reading.setCreated Reading.setId]. rewrite String.eqb_refl. reflexivity.
    + intros x Hx. rewrite selects_byObjectId_reading. unfold ObjectId_eqb.
      apply String.eqb_neq. now apply Hfresh.
Qed.

Lemma find_unique {A : Type} (f : A -> ObjectId) (l : list A) (a : A) :
  NoDup (map f l) -> List.In a l ->
  find (fun x => ObjectId_eqb (f x) (f a)) l = Some a.
Proof.
  induction l as [|x l IH]; intros Hnd Hin; [destruct Hin|].
  simpl in Hnd. inversion Hnd as [|y l' Hx Hnd']; subst. simpl.
  unfold ObjectId_eqb in *. destruct Hin as [->|Hin].
  - now rewrite String.eqb_refl.
  - destruct (String.eqb (f x) (f a)) eqn:E.
    + apply String.eqb_eq in E. exfalso. apply Hx. rewrite E. now apply in_map.
    + now apply IH.
Qed.

Lemma dereference_own (rs ui : list Reading.t) :
  NoDup (map Reading.Id ui) ->
  (forall x, List.In x rs -> ~ List.In (Reading.Id x) (map Reading.Id ui)) ->
  forall l, incl l ui -> dereference (rs ++ ui) (map Reading.Id l) = Some l.
Proof.
  intros Hnd Hfresh l. induction l as [|a l IH]; intros Hincl; [reflexivity|].
  cbn [map dereference].
  assert (Ha : List.In a ui) by (apply Hincl; now left).
  rewrite IH by (intros x Hx; apply Hincl; now right).
  unfold byId. cbn [oid readingsC].
  rewrite find_app_absent.
  - now rewrite (find_unique Reading.Id ui a Hnd Ha).
  - intros x Hx. unfold ObjectId_eqb. apply String.eqb_neq. intros E.
    apply (Hfresh x Hx). rewrite E. now apply in_map.
Qed.

(** X6.  An event that was added is read back as it was stored.  Take a
    driver that lets the calls through, a generator that has not run out
    of identifiers, and a store in which no event and no reading already
    carries one of the identifiers about to be drawn.  Then [EventById],
    called with a hex string of the identifier that [AddEvent] returned,
    gives back with no error exactly the event as [AddEvent] left it in
    the caller's hands: the caller's event with its new identifier and
    creation time, and with its readings stamped. *)
Theorem add_event_then_event_by_id
  (t : Z) (e : Event.t) (db : Database) (s : string)
  (Hquiet : quiet 3 db = true)
  (Hids : (counter db + N.of_nat (S (List.length (Event.Readings e))) <= 2 ^ 96)%N)
  (Hevents : forall d, List.In d (events db) ->
                       MongoEvent.ID d <> objectIdOfCounter (counter db))
  (Hreadings : forall x, List.In x (readings db) ->
                 ~ List.In (Reading.Id x)
                     (drawn (N.succ (counter db)) (List.length (Event.Readings e))))
  (Hhex : IsObjectIdHex s = true)
  (Hid : ObjectIdHex s = snd (fst (fst (AddEvent t e db)))) :
  fst (EventById s (snd (AddEvent t e db))) = (fst (fst (fst (AddEvent t e db))), None) /\
  Event.ID (fst (fst (fst (AddEvent t e db)))) = ObjectIdHex s.
Proof.
  destruct (AddEvent_quiet t e db Hquiet) as [Hres [Hev [Hrd Hn]]].
  rewrite Hres in *. cbn [fst snd] in *.
  set (db1 := snd (AddEvent t e db)) in *.
  set (e' := added (nowMillis t) (counter db) e) in *.
  split; [|now rewrite Hid].
  unfold EventById. rewrite Hhex, Hid. cbn [negb].
  fold (byObjectId (objectIdOfCounter (counter db))).
  unfold getEvent, bind. rewrite FindOne_run, Hn.
  unfold gets, ret. cbn [docs eventsC afterCall events readings].
  rewrite Hev, Hrd, find_app_absent.
  - cbn [find]. rewrite selects_byObjectId_event. unfold ObjectId_eqb.
    cbn [MongoEvent.ID MongoEvent.ofEvent e' added Event.ID].
    rewrite String.eqb_refl. unfold loadEvent.
    cbn [MongoEvent.Readings MongoEvent.ofEvent].
    rewrite (dereference_own (readings db) (Event.Readings e')).
    + reflexivity.
    + cbn [e' added Event.Readings]. rewrite stamped_ids.
      apply drawn_NoDup. lia.
    + cbn [e' added Event.Readings]. rewrite stamped_ids. exact Hreadings.
    + apply incl_refl.
  - intros d Hd. rewrite selects_byObjectId_event. unfold ObjectId_eqb.
    apply String.eqb_neq. now apply Hevents.
Qed.

(* --------------------------------------------------------------------- *)
(** *** Listings *)
(* --------------------------------------------------------------------- *)

Lemma FindAll_run {D : Type} (C : Collection D) (q : M) (limit : option Z) (db : Database) :
  FindAll C q limit db
  = (match nextOutcome db with
     | Some err => ([], Some err)
     | None =>
         (match limit with
          | Some n => Limit n (filter (selects C q) (docs C (afterCall (CFind (cname C) q) db)))
          | None => filter (selects C q) (docs C (afterCall (CFind (cname C) q) db))
          end, None)
     end,
     afterCall (CFind (cname C) q) db).
Proof.
  unfold FindAll, bind. rewrite issue_run.
  destruct (nextOutcome db) as [err|]; reflexivity.
Qed.

Lemma getReadingsLimit_run (q : M) (limit : Z) (db : Database) :
  limit <> 0%Z -> nextOutcome db = None ->
  fst (getReadingsLimit q limit db)
  = (firstMatching (selects readingsC q) limit (readings db), None).
Proof.
  intros Hl Hn. unfold getReadingsLimit. apply Z.eqb_neq in Hl as Hl'. rewrite Hl'.
  rewrite FindAll_run, Hn. cbn [fst]. now rewrite Limit_nonzero.
Qed.

Lemma firstMatching_ext {A : Type} (p p' : A -> bool) (limit : Z) (l : list A) :
  (forall a, p a = p' a) -> firstMatching p limit l = firstMatching p' limit l.
Proof. intros E. unfold firstMatching. now rewrite (filter_ext _ _ E). Qed.

(** X7.  With a nonzero limit and a driver that lets the call through,
    each limited listing of readings returns, with no error, the first
    [|limit|] readings of the store, in store order, that meet its
    criterion: the given device; the given value-descriptor name; a name
    among the given names; a creation time within the given bounds, both
    included; the given device and the given name together. *)
Theorem readings_listings_return_the_first_matching_readings
  (db : Database) (limit : Z) (id name deviceId valueDescriptor : string)
  (names : list string) (start end_ : Z)
  (Hlimit : limit <> 0%Z) (Hquiet : nextOutcome db = None) :
  fst (ReadingsByDevice id limit db)
  = (firstMatching (fun r => String.eqb id (Reading.Device r)) limit (readings db), None) /\
  fst (ReadingsByValueDescriptor name limit db)
  = (firstMatching (fun r => String.eqb name (Reading.Name r)) limit (readings db), None) /\
  fst (ReadingsByValueDescriptorNames names limit db)
  = (firstMatching (fun r => existsb (String.eqb (Reading.Name r)) names) limit (readings db),
     None) /\
  fst (ReadingsByCreationTime start end_ limit db)
  = (firstMatching (fun r => Z.leb start (Reading.Created r) && Z.leb (Reading.Created r) end_)
                   limit (readings db), None) /\
  fst (ReadingsByDeviceAndValueDescriptor deviceId valueDescriptor limit db)
  = (firstMatching (fun r => String.eqb deviceId (Reading.Device r)
                             && String.eqb valueDescriptor (Reading.Name r))
                   limit (readings db), None).
Proof.
  unfold ReadingsByDevice, ReadingsByValueDescriptor, ReadingsByValueDescriptorNames,
    ReadingsByCreationTime, ReadingsByDeviceAndValueDescriptor.
  rewrite !getReadingsLimit_run by assumption.
  split_all; f_equal; apply firstMatching_ext; intros r; unfold selects; cbn;
    rewrite ?andb_true_r; reflexivity.
Qed.

Lemma filter_all {A : Type} (p : A -> bool) (l : list A) :
  Forall (fun a => p a = true) l -> filter p l = l.
Proof.
  induction 1 as [|a l Ha _ IH]; [reflexivity|]. simpl. now rewrite Ha, IH.
Qed.

(** X8.  After [AddEvent] has gone through, all the readings of the event
    are listed under the event's device: with a nonzero limit,
    [ReadingsByDevice] for that device returns the first [|limit|] of the
    readings that the store already held for the device followed by the
    readings of the event, as stamped.  On a store without readings of
    that device, the listing is made of the event's readings alone. *)
Theorem add_event_then_readings_by_device
  (t : Z) (e : Event.t) (db : Database) (limit : Z)
  (Hquiet : quiet 3 db = true) (Hlimit : limit <> 0%Z) :
  let e' := fst (fst (fst (AddEvent t e db))) in
  let earlier := filter (fun r => String.eqb (Event.Device e) (Reading.Device r)) (readings db) in
  fst (ReadingsByDevice (Event.Device e) limit (snd (AddEvent t e db)))
  = (firstn (Z.abs_nat limit) (earlier ++ Event.Readings e'), None) /\
  (earlier = [] ->
   fst (ReadingsByDevice (Event.Device e) limit (snd (AddEvent t e db)))
   = (firstn (Z.abs_nat limit) (Event.Readings e'), None)).
Proof.
  cbv zeta.
  destruct (AddEvent_quiet t e db Hquiet) as [Hres [_ [Hrd Hn]]].
  rewrite Hres. cbn [fst].
  assert (H : fst (ReadingsByDevice (Event.Device e) limit (snd (AddEvent t e db)))
              = (firstn (Z.abs_nat limit)
                   (filter (fun r => String.eqb (Event.Device e) (Reading.Device r))
                      (readings db)
                    ++ Event.Readings (added (nowMillis t) (counter db) e)), None)).
  { unfold ReadingsByDevice. rewrite getReadingsLimit_run by assumption.
    unfold firstMatching. rewrite Hrd.
    rewrite (filter_ext _ (fun r => String.eqb (Event.Device e) (Reading.Device r)))
      by (intros r; unfold selects; cbn; now rewrite ?andb_true_r).
    rewrite filter_app. f_equal. f_equal. f_equal. apply filter_all. cbn [added Event.Readings].
    eapply Forall_impl; [|apply stamped_Forall].
    intros r [_ Hd]. cbn beta. rewrite Hd. apply String.eqb_refl. }
  split; [exact H|]. intros E. rewrite H, E. reflexivity.
Qed.

(** X9.  With a driver that lets the call through, the listings of value
    descriptors return, with no error and in store order, exactly the
    stored descriptors that meet their criterion: all of them; those with
    the given unit-of-measure label; those whose labels contain the given
    label; those of the given type.  When the driver fails, each returns
    the empty list with the driver's error. *)
Theorem value_descriptor_listings_return_the_matching_descriptors
  (db : Database) (uomLabel label t : string) :
  (nextOutcome db = None ->
   fst (ValueDescriptors db) = (valueDescriptors db, None) /\
   fst (ValueDescriptorsByUomLabel uomLabel db)
   = (filter (fun v => String.eqb uomLabel (ValueDescriptor.UomLabel v)) (valueDescriptors db),
      None) /\
   fst (ValueDescriptorsByLabel label db)
   = (filter (fun v => existsb (String.eqb label) (ValueDescriptor.Labels v))
             (valueDescriptors db), None) /\
   fst (ValueDescriptorsByType t db)
   = (filter (fun v => String.eqb t (ValueDescriptor.Type_ v)) (valueDescriptors db), None)) /\
  (forall err, nextOutcome db = Some err ->
   fst (ValueDescriptors db) = ([], Some err) /\
   fst (ValueDescriptorsByUomLabel uomLabel db) = ([], Some err) /\
   fst (ValueDescriptorsByLabel label db) = ([], Some err) /\
   fst (ValueDescriptorsByType t db) = ([], Some err)).
Proof.
  unfold ValueDescriptors, ValueDescriptorsByUomLabel, ValueDescriptorsByLabel,
    ValueDescriptorsByType, getValueDescriptors.
  rewrite !FindAll_run. split.
  - intros ->. cbn [fst docs valueDescriptorsC afterCall valueDescriptors].
    split_all; f_equal.
    + induction (valueDescriptors db) as [|v l IH]; [reflexivity|].
      cbn [filter selects forallb]. now rewrite IH.
    + apply filter_ext. intros v. unfold selects. cbn. now rewrite ?andb_true_r.
    + apply filter_ext. intros v. unfold selects. cbn. now rewrite ?andb_true_r.
    + apply filter_ext. intros v. unfold selects. cbn. now rewrite ?andb_true_r.
  - intros err ->. now repeat split.
Qed.

Lemma dereference_ids (rs : list Reading.t) (refs : list ObjectId) :
  forall l, dereference rs refs = Some l -> map Reading.Id l = refs.
Proof.
  induction refs as [|id refs IH]; intros l H; simpl in H.
  - now inversion H.
  - destruct (find (byId readingsC id) rs) as [r|] eqn:Hf; [|discriminate].
    destruct (dereference rs refs) as [l0|]; [|discriminate].
    inversion H; subst. simpl. f_equal; [|now apply IH].
    apply find_some in Hf as [_ Hr]. unfold byId, ObjectId_eqb in Hr.
    now apply String.eqb_eq in Hr.
Qed.

Lemma loadEvents_loadedFrom (rs : list Reading.t) (ds : list MongoEvent.doc) :
  forall es, loadEvents rs ds = Some es -> Forall2 loadedFrom ds es.
Proof.
  induction ds as [|d ds IH]; intros es H; simpl in H.
  - inversion H. constructor.
  - unfold loadEvent in H.
    destruct (dereference rs (MongoEvent.Readings d)) as [l|] eqn:Hd; [|discriminate].
    destruct (loadEvents rs ds) as [es'|]; [|discriminate].
    inversion H; subst. constructor; [|now apply IH].
    unfold loadedFrom. cbn. repeat split. now apply (dereference_ids rs).
Qed.

Lemma getEvents_loadedFrom (q : M) (db : Database) :
  snd (fst (getEvents q db)) = None ->
  Forall2 loadedFrom (filter (selects eventsC q) (events db)) (fst (fst (getEvents q db))).
Proof.
  unfold getEvents, bind. rewrite FindAll_run.
  destruct (nextOutcome db) as [err|]; cbn [fst snd]; unfold ret, gets; [discriminate|].
  cbn [docs eventsC afterCall events readings].
  destruct (loadEvents (readings db) (filter (selects eventsC q) (events db))) as [es|] eqn:He;
    cbn [fst snd]; [|discriminate].
  intros _. now apply loadEvents_loadedFrom in He.
Qed.

Lemma getEventsLimit_loadedFrom (q : M) (limit : Z) (db : Database) :
  limit <> 0%Z ->
  snd (fst (getEventsLimit q limit db)) = None ->
  Forall2 loadedFrom (firstMatching (selects eventsC q) limit (events db))
          (fst (fst (getEventsLimit q limit db))).
Proof.
  intros Hl. unfold getEventsLimit, bind. apply Z.eqb_neq in Hl as Hl'. rewrite Hl'.
  rewrite FindAll_run.
  destruct (nextOutcome db) as [err|]; cbn [fst snd]; unfold ret, gets; [discriminate|].
  cbn [docs eventsC afterCall events readings]. rewrite Limit_nonzero by assumption.
  fold (firstMatching (selects eventsC q) limit (events db)).
  destruct (loadEvents (readings db) (firstMatching (selects eventsC q) limit (events db)))
    as [es|] eqn:He; cbn [fst snd]; [|discriminate].
  intros _. now apply loadEvents_loadedFrom in He.
Qed.

Lemma selectsEvents_ext (q : M) (p : MongoEvent.doc -> bool) (l : list MongoEvent.doc) :
  (forall d, selects eventsC q d = p d) -> filter (selects eventsC q) l = filter p l.
Proof. intros E. now apply filter_ext. Qed.

(** X10.  Whenever a listing of events returns no error, the events it
    returns are, one for one and in store order, the stored event
    documents that meet its criterion, each loaded with the scalar
    attributes of its document and with readings that bear the
    identifiers the document refers to.  The criteria are: every event;
    the given device; a creation time within the given bounds, both
    included, cut to the first [|limit|]; a creation time strictly
    before the clock's reading in milliseconds minus the age, computed on
    64 bits; a pushed time strictly above zero. *)
Theorem events_listings_return_the_matching_events
  (db : Database) (id : string) (startTime endTime limit unixNano age : Z) :
  (snd (fst (Events db)) = None ->
   Forall2 loadedFrom (events db) (fst (fst (Events db)))) /\
  (snd (fst (EventsForDevice id db)) = None ->
   Forall2 loadedFrom
     (filter (fun d => String.eqb id (MongoEvent.Device d)) (events db))
     (fst (fst (EventsForDevice id db)))) /\
  (limit <> 0%Z ->
   snd (fst (EventsForDeviceLimit id limit db)) = None ->
   Forall2 loadedFrom
     (firstMatching (fun d => String.eqb id (MongoEvent.Device d)) limit (events db))
     (fst (fst (EventsForDeviceLimit id limit db)))) /\
  (limit <> 0%Z ->
   snd (fst (EventsByCreationTime startTime endTime limit db)) = None ->
   Forall2 loadedFrom
     (firstMatching (fun d => Z.leb startTime (MongoEvent.Created d)
                              && Z.leb (MongoEvent.Created d) endTime) limit (events db))
     (fst (fst (EventsByCreationTime startTime endTime limit db)))) /\
  (snd (fst (EventsOlderThanAge unixNano age db)) = None ->
   Forall2 loadedFrom
     (filter (fun d => Z.ltb (MongoEvent.Created d) (int64 (nowMillis unixNano - age)))
             (events db))
     (fst (fst (EventsOlderThanAge unixNano age db)))) /\
  (snd (fst (EventsPushed db)) = None ->
   Forall2 loadedFrom
     (filter (fun d => Z.ltb 0 (MongoEvent.Pushed d)) (events db))
     (fst (fst (EventsPushed db)))).
Proof.
  unfold Events, EventsForDevice, EventsForDeviceLimit, EventsByCreationTime,
    EventsOlderThanAge, EventsPushed.
  split_all.
  - intros H. apply getEvents_loadedFrom in H.
    rewrite (selectsEvents_ext [] (fun _ => true)) in H by reflexivity.
    rewrite filter_all in H; [exact H|]. apply Forall_forall. reflexivity.
  - intros H. apply getEvents_loadedFrom in H.
    rewrite (selectsEvents_ext _ (fun d => String.eqb id (MongoEvent.Device d))) in H;
      [exact H|]. intros d. unfold selects. cbn. now rewrite ?andb_true_r.
  - intros Hl H. apply getEventsLimit_loadedFrom in H; [|assumption].
    unfold firstMatching in *.
    rewrite (selectsEvents_ext _ (fun d => String.eqb id (MongoEvent.Device d))) in H;
      [exact H|]. intros d. unfold selects. cbn. now rewrite ?andb_true_r.
  - intros Hl H. apply getEventsLimit_loadedFrom in H; [|assumption].
    unfold firstMatching in *.
    rewrite (selectsEvents_ext _ (fun d => Z.leb startTime (MongoEvent.Created d)
                                           && Z.leb (MongoEvent.Created d) endTime)) in H;
      [exact H|]. intros d. unfold selects. cbn. now rewrite ?andb_true_r.
  - intros H. apply getEvents_loadedFrom in H.
    rewrite (selectsEvents_ext _
               (fun d => Z.ltb (MongoEvent.Created d) (int64 (nowMillis unixNano - age)))) in H;
      [exact H|]. intros d. unfold selects. cbn. now rewrite ?andb_true_r.
  - intros H. apply getEvents_loadedFrom in H.
    rewrite (selectsEvents_ext _ (fun d => Z.ltb 0 (MongoEvent.Pushed d))) in H;
      [exact H|]. intros d. unfold selects. cbn. now rewrite ?andb_true_r.
Qed.

(* --------------------------------------------------------------------- *)
(** *** Counting and reading write nothing *)
(* --------------------------------------------------------------------- *)

Lemma Count_run {D : Type} (C : Collection D) (q : M) (db : Database) :
  Count C q db
  = (match nextOutcome db with
     | Some err => (0%Z, Some err)
     | None =>
         (Z.of_nat (List.length (filter (selects C q)
                                        (docs C (afterCall (CCount (cname C)) db)))), None)
     end,
     afterCall (CCount (cname C)) db).
Proof.
  unfold Count, bind. rewrite issue_run.
  destruct (nextOutcome db) as [err|]; reflexivity.
Qed.

(** X11.  The counts agree with the listings.  With a driver that lets
    the call through, [EventCount], [EventCountByDeviceId] and
    [ReadingCount] return, with no error, the number of stored events,
    of stored events of the device, and of stored readings; and whenever
    the corresponding listing ([Events], [EventsForDevice], [Readings])
    succeeds on the same database, it returns that many documents.  When
    the driver fails, the count is 0 with the driver's error. *)
Theorem counts_agree_with_listings (db : Database) (id : string) :
  (nextOutcome db = None ->
   fst (EventCount db) = (Z.of_nat (List.length (events db)), None) /\
   fst (EventCountByDeviceId id db)
   = (Z.of_nat (List.length (filter (fun d => String.eqb id (MongoEvent.Device d))
                                    (events db))), None) /\
   fst (ReadingCount db) = (Z.of_nat (List.length (readings db)), None) /\
   (snd (fst (Events db)) = None ->
    fst (fst (EventCount db)) = Z.of_nat (List.length (fst (fst (Events db))))) /\
   (snd (fst (EventsForDevice id db)) = None ->
    fst (fst (EventCountByDeviceId id db))
    = Z.of_nat (List.length (fst (fst (EventsForDevice id db))))) /\
   fst (fst (ReadingCount db)) = Z.of_nat (List.length (fst (fst (Readings db))))) /\
  (forall err, nextOutcome db = Some err ->
   fst (EventCount db) = (0%Z, Some err) /\
   fst (EventCountByDeviceId id db) = (0%Z, Some err) /\
   fst (ReadingCount db) = (0%Z, Some err)).
Proof.
  assert (Hall : forall (A : Type) (l : list A), filter (fun _ => true) l = l)
    by (intros A l; induction l as [|a l IH]; [reflexivity|simpl; now rewrite IH]).
  assert (He : filter (selects eventsC []) (events db) = events db)
    by (rewrite (selectsEvents_ext [] (fun _ => true)) by reflexivity; apply Hall).
  assert (Hd : filter (selects eventsC [("device", [Is (VString id)])]) (events db)
               = filter (fun d => String.eqb id (MongoEvent.Device d)) (events db))
    by (apply selectsEvents_ext; intros d; unfold selects; cbn; now rewrite ?andb_true_r).
  assert (Hr : filter (selects readingsC []) (readings db) = readings db)
    by (rewrite (filter_ext _ (fun _ => true)) by reflexivity; apply Hall).
  unfold EventCount, EventCountByDeviceId, ReadingCount. rewrite !Count_run.
  split.
  - intros Hn. rewrite Hn.
    cbn [fst docs eventsC readingsC afterCall events readings].
    rewrite He, Hd, Hr. split_all; try reflexivity.
    + intros H. apply getEvents_loadedFrom in H. apply Forall2_length in H.
      unfold Events. rewrite <- H, He. reflexivity.
    + intros H. apply getEvents_loadedFrom in H. apply Forall2_length in H.
      unfold EventsForDevice. rewrite <- H, Hd. reflexivity.
    + unfold Readings, getReadings. rewrite FindAll_run, Hn.
      cbn [fst docs readingsC afterCall readings]. now rewrite Hr.
  - intros err ->. now repeat split.
Qed.

Lemma readOnly_ret {A : Type} (a : A) : readOnly (ret a).
Proof. intros db. now repeat split. Qed.

Lemma readOnly_bind {A B : Type} (m : Op A) (k : A -> Op B) :
  readOnly m -> (forall a, readOnly (k a)) -> readOnly (bind m k).
Proof.
  intros Hm Hk db. unfold bind. specialize (Hm db).
  destruct (m db) as [a db1]. specialize (Hk a db1). cbn [snd] in *.
  destruct Hm as [[E1 [E2 E3]] E4], Hk as [[F1 [F2 F3]] F4].
  unfold sameData. repeat split; congruence.
Qed.

Lemma readOnly_issue (c : call) : readOnly (issue c).
Proof. intros db. rewrite issue_run. now repeat split. Qed.

Lemma readOnly_gets {A : Type} (f : Database -> A) : readOnly (gets f).
Proof. intros db. now repeat split. Qed.

Lemma readOnly_FindAll {D : Type} (C : Collection D) (q : M) (limit : option Z) :
  readOnly (FindAll C q limit).
Proof.
  unfold FindAll. apply readOnly_bind; [apply readOnly_issue|].
  intros [err|]; [apply readOnly_ret|].
  apply readOnly_bind; [apply readOnly_gets|]. intros l. apply readOnly_ret.
Qed.

Lemma readOnly_FindOne {D : Type} (C : Collection D) (q : M) : readOnly (FindOne C q).
Proof.
  unfold FindOne. apply readOnly_bind; [apply readOnly_issue|].
  intros [err|]; [apply readOnly_ret|].
  apply readOnly_bind; [apply readOnly_gets|]. intros l.
  destruct (filter (selects C q) l); apply readOnly_ret.
Qed.

Lemma readOnly_Count {D : Type} (C : Collection D) (q : M) : readOnly (Count C q).
Proof.
  unfold Count. apply readOnly_bind; [apply readOnly_issue|].
  intros [err|]; [apply readOnly_ret|].
  apply readOnly_bind; [apply readOnly_gets|]. intros l. apply readOnly_ret.
Qed.

Lemma readOnly_getEvents (q : M) : readOnly (getEvents q).
Proof.
  unfold getEvents. apply readOnly_bind; [apply readOnly_FindAll|].
  intros [l [err|]]; cbn [snd fst]; [apply readOnly_ret|].
  apply readOnly_bind; [apply readOnly_gets|]. intros rs.
  destruct (loadEvents rs l); apply readOnly_ret.
Qed.

Lemma readOnly_getEventsLimit (q : M) (limit : Z) : readOnly (getEventsLimit q limit).
Proof.
  unfold getEventsLimit. destruct (Z.eqb limit 0); [apply readOnly_ret|].
  apply readOnly_bind; [apply readOnly_FindAll|].
  intros [l [err|]]; cbn [snd fst]; [apply readOnly_ret|].
  apply readOnly_bind; [apply readOnly_gets|]. intros rs.
  destruct (loadEvents rs l); apply readOnly_ret.
Qed.

Lemma readOnly_getEvent (q : M) : readOnly (getEvent q).
Proof.
  unfold getEvent. apply readOnly_bind; [apply readOnly_FindOne|].
  intros [[d|] [err|]]; (apply readOnly_bind; [apply readOnly_gets|]); intros rs;
    try apply readOnly_ret.
  destruct (loadEvent rs d); apply readOnly_ret.
Qed.

Lemma readOnly_getReadingsLimit (q : M) (limit : Z) : readOnly (getReadingsLimit q limit).
Proof.
  unfold getReadingsLimit. destruct (Z.eqb limit 0); [apply readOnly_ret|].
  apply readOnly_FindAll.
Qed.

Lemma readOnly_getReading (q : M) : readOnly (getReading q).
Proof.
  unfold getReading. apply readOnly_bind; [apply readOnly_FindOne|].
  intros [[d|] [err|]]; apply readOnly_ret.
Qed.

Lemma readOnly_getValueDescriptor (q : M) : readOnly (getValueDescriptor q).
Proof.
  unfold getValueDescriptor. apply readOnly_bind; [apply readOnly_FindOne|].
  intros [[d|] [err|]]; apply readOnly_ret.
Qed.

Lemma readOnly_lookupEach (names : list string) :
  forall vList, readOnly (lookupEach names vList).
Proof.
  induction names as [|name names IH]; intros vList; [apply readOnly_ret|].
  cbn [lookupEach]. apply readOnly_bind; [apply readOnly_getValueDescriptor|].
  intros [v [err|]]; cbn [fst snd]; [|apply IH].
  destruct (negb (error_eqb err ErrNotFound)); [apply readOnly_ret|apply IH].
Qed.

(** X12.  None of the operations that get, list or count ever writes:
    whatever the database, the identifier, the limit and the answers of
    the driver, the three collections and the identifier generator are
    the same after the call as before it. *)
Theorem reading_operations_write_nothing
  (id name : string) (names : list string) (limit startTime endTime unixNano age : Z) :
  (readOnly Events /\ readOnly (EventById id) /\ readOnly EventCount /\
   readOnly (EventCountByDeviceId id) /\ readOnly (EventsForDeviceLimit id limit) /\
   readOnly (EventsForDevice id) /\ readOnly (EventsByCreationTime startTime endTime limit) /\
   readOnly (EventsOlderThanAge unixNano age) /\ readOnly EventsPushed) /\
  (readOnly Readings /\ readOnly (ReadingById id) /\ readOnly ReadingCount /\
   readOnly (ReadingsByDevice id limit) /\ readOnly (ReadingsByValueDescriptor name limit) /\
   readOnly (ReadingsByValueDescriptorNames names limit) /\
   readOnly (ReadingsByCreationTime startTime endTime limit) /\
   readOnly (ReadingsByDeviceAndValueDescriptor id name limit)) /\
  (readOnly ValueDescriptors /\ readOnly (ValueDescriptorByName name) /\
   readOnly (ValueDescriptorsByName names) /\ readOnly (ValueDescriptorById id) /\
   readOnly (ValueDescriptorsByUomLabel name) /\ readOnly (ValueDescriptorsByLabel name) /\
   readOnly (ValueDescriptorsByType name) /\
   readOnly (getValueDescriptorsLimit [] limit)).
Proof.
  unfold Events, EventById, EventCount, EventCountByDeviceId, EventsForDeviceLimit,
    EventsForDevice, EventsByCreationTime, EventsOlderThanAge, EventsPushed,
    Readings, ReadingById, ReadingCount, ReadingsByDevice, ReadingsByValueDescriptor,
    ReadingsByValueDescriptorNames, ReadingsByCreationTime,
    ReadingsByDeviceAndValueDescriptor, ValueDescriptors, ValueDescriptorByName,
    ValueDescriptorsByName, ValueDescriptorById, ValueDescriptorsByUomLabel,
    ValueDescriptorsByLabel, ValueDescriptorsByType, getValueDescriptorsLimit,
    getReadings, getValueDescriptors.
  destruct (IsObjectIdHex id); cbn [negb];
    split_all;
    first [ apply readOnly_ret | apply readOnly_getEvents | apply readOnly_getEventsLimit
          | apply readOnly_getEvent | apply readOnly_Count | apply readOnly_FindAll
          | apply readOnly_getReadingsLimit | apply readOnly_getReading
          | apply readOnly_getValueDescriptor | apply readOnly_lookupEach ].
Qed.

(* --------------------------------------------------------------------- *)
(** *** Value descriptors: adding, and the uniqueness of names *)
(* --------------------------------------------------------------------- *)

Lemma upsertInto_absent {D : Type} (C : Collection D) (q : M) (d : D) (l : list D) :
  (forall y, List.In y l -> selects C q y = false) -> upsertInto C q d l = Absent.
Proof.
  induction l as [|a l IH]; intros H; [reflexivity|]. cbn [upsertInto].
  rewrite (H a (or_introl eq_refl)), IH; [reflexivity|].
  intros y Hy. apply H. now right.
Qed.

(** X13.  Adding a value descriptor whose name is not in the store, with
    no identifier of its own, when the driver lets the calls through:
    the descriptor gets the next identifier of the generator and the
    clock's reading as creation time and is appended to the collection;
    that identifier is returned with no error; events and readings are
    untouched; and a lookup by that name then returns exactly the stored
    descriptor. *)
Theorem add_value_descriptor_with_new_name_then_lookup
  (t : Z) (v : ValueDescriptor.t) (db : Database)
  (Hquiet : quiet 2 db = true)
  (Hid : ValueDescriptor.Id v = EmptyString)
  (Hnew : forall d, List.In d (valueDescriptors db) ->
                    ValueDescriptor.Name d <> ValueDescriptor.Name v) :
  let res := AddValueDescriptor t v db in
  let stored := ValueDescriptor.setId (objectIdOfCounter (counter db))
                  (ValueDescriptor.setCreated (nowMillis t) v) in
  fst res = (objectIdOfCounter (counter db), None) /\
  valueDescriptors (snd res) = (valueDescriptors db ++ [stored])%list /\
  events (snd res) = events db /\
  readings (snd res) = readings db /\
  fst (ValueDescriptorByName (ValueDescriptor.Name v) (snd res)) = (stored, None).
Proof.
  cbv zeta.
  destruct (quiet_two (CUpsert VALUE_DESCRIPTOR_COLLECTION) db Hquiet) as [Hn Hn'].
  assert (Hrun :
    AddValueDescriptor t v db
    = (objectIdOfCounter (counter db), None,
       setValueDescriptors
         (valueDescriptors db
          ++ [ValueDescriptor.setId (objectIdOfCounter (counter db))
                (ValueDescriptor.setCreated (nowMillis t) v)])%list
         (setCounter (N.succ (counter db))
            (afterCall (CUpsert VALUE_DESCRIPTOR_COLLECTION) db)))).
  { unfold AddValueDescriptor, Upsert, bind. rewrite issue_run, Hn.
    unfold gets, modify, ret.
    cbn [ValueDescriptor.Name ValueDescriptor.setCreated docs valueDescriptorsC afterCall
         valueDescriptors cname].
    fold (byName (ValueDescriptor.Name v)).
    rewrite upsertInto_absent.
    - cbn [oid valueDescriptorsC ValueDescriptor.Id ValueDescriptor.setCreated]. rewrite Hid.
      unfold ObjectId_eqb. cbn [String.eqb]. unfold NewObjectId. reflexivity.
    - intros y Hy. rewrite selects_byName. apply String.eqb_neq.
      intros E. now apply (Hnew y Hy). }
  rewrite Hrun. cbn [fst snd valueDescriptors events readings setValueDescriptors
                     setCounter afterCall].
  split_all; try reflexivity.
  unfold ValueDescriptorByName. fold (byName (ValueDescriptor.Name v)).
  rewrite getValueDescriptor_byName_run.
  unfold nextOutcome in *. cbn [pending afterCall setValueDescriptors setCounter fst] in *.
  rewrite Hn'. cbn [valueDescriptors setValueDescriptors]. unfold named.
  rewrite find_app_absent.
  - cbn [find ValueDescriptor.Name ValueDescriptor.setId ValueDescriptor.setCreated].
    now rewrite String.eqb_refl.
  - intros y Hy. apply String.eqb_neq. intros E. now apply (Hnew y Hy).
Qed.

Lemma NoDup_middle {A : Type} (x : A) (l1 l2 : list A) :
  NoDup (l1 ++ l2) -> ~ List.In x (l1 ++ l2) -> NoDup (l1 ++ x :: l2).
Proof.
  intros Hnd Hx. apply (Permutation_NoDup (Permutation_middle l1 l2 x)).
  now constructor.
Qed.

(** X14.  The store keeps the names of its value descriptors pairwise
    distinct.  [AddValueDescriptor] and [DeleteValueDescriptorById]
    preserve the distinctness of names whatever their arguments and
    outcome; [UpdateValueDescriptor] preserves it, together with the
    distinctness of identifiers, on a store whose identifiers are
    pairwise distinct. *)
Theorem value_descriptor_names_stay_unique
  (t : Z) (v : ValueDescriptor.t) (id : string) (db : Database)
  (Hnames : NoDup (map ValueDescriptor.Name (valueDescriptors db))) :
  NoDup (map ValueDescriptor.Name (valueDescriptors (snd (AddValueDescriptor t v db)))) /\
  NoDup (map ValueDescriptor.Name
             (valueDescriptors (snd (DeleteValueDescriptorById id db)))) /\
  (NoDup (map ValueDescriptor.Id (valueDescriptors db)) ->
   NoDup (map ValueDescriptor.Name (valueDescriptors (snd (UpdateValueDescriptor t v db)))) /\
   NoDup (map ValueDescriptor.Id (valueDescriptors (snd (UpdateValueDescriptor t v db))))).
Proof.
  split_all.
  - now apply AddValueDescriptor_keeps_names_unique.
  - unfold DeleteValueDescriptorById.
    destruct (IsObjectIdHex id) eqn:Hhex; cbn [negb]; [|exact Hnames].
    rewrite deleteById_run by assumption.
    destruct (nextOutcome db); [exact Hnames|].
    cbn [docs store cname valueDescriptorsC afterCall valueDescriptors].
    destruct (removeFirst _ (valueDescriptors db)) as [l|] eqn:Hr; [|exact Hnames].
    apply removeFirst_Some in Hr as [l1 [d [l2 [E [_ [_ E']]]]]].
    cbn [snd valueDescriptors setValueDescriptors]. subst l. rewrite E in Hnames.
    rewrite map_app in *. cbn [map] in Hnames. now apply NoDup_remove_1 in Hnames.
  - intros Hids. rewrite UpdateValueDescriptor_run. cbv zeta.
    destruct (nextOutcome db); [now split|].
    assert (Hupd :
      forall d0,
        named (valueDescriptors db) (ValueDescriptor.Name v) = d0 ->
        match d0 with
        | Some d => ValueDescriptor.Id d = ValueDescriptor.Id v
        | None => True
        end ->
        let res :=
          bind (UpdateId valueDescriptorsC (ValueDescriptor.Id v)
                  (ValueDescriptor.setModified (nowMillis t) v))
               (fun err => ret (orNotFound err))
               (afterCall (CFind VALUE_DESCRIPTOR_COLLECTION
                             (byName (ValueDescriptor.Name v))) db) in
        NoDup (map ValueDescriptor.Name (valueDescriptors (snd res))) /\
        NoDup (map ValueDescriptor.Id (valueDescriptors (snd res)))).
    { intros d0 Hnamed Hsame. cbv zeta. unfold bind. rewrite UpdateId_run.
      destruct (nextOutcome _); [now split|].
      cbn [docs store cname valueDescriptorsC afterCall valueDescriptors].
      destruct (replaceFirst _ _ (valueDescriptors db)) as [l|] eqn:Hr; [|now split].
      apply replaceFirst_Some in Hr as [l1 [d [l2 [E [Hd [_ E']]]]]].
      unfold byId, ObjectId_eqb in Hd. cbn [oid valueDescriptorsC] in Hd.
      apply String.eqb_eq in Hd.
      unfold ret. cbn [snd valueDescriptors setValueDescriptors]. subst l.
      rewrite E in Hnames, Hids. rewrite !map_app in *. cbn [map] in *.
      cbn [ValueDescriptor.Id ValueDescriptor.Name ValueDescriptor.setModified].
      split; [|now rewrite <- Hd].
      destruct d0 as [d0|].
      - apply named_Some in Hnamed as [Hin Hname].
        assert (d0 = d) as ->.
        { apply (NoDup_map_eq ValueDescriptor.Id (valueDescriptors db)).
          - rewrite E, map_app. exact Hids.
          - exact Hin.
          - rewrite E. apply in_or_app. right. now left.
          - congruence. }
        now rewrite <- Hname.
      - apply NoDup_middle; [now apply NoDup_remove_1 in Hnames|].
        rewrite <- map_app. intros Hin. apply in_map_iff in Hin as [y [Hy Hin]].
        apply (named_None _ _ Hnamed y); [|exact Hy].
        rewrite E. apply in_app_or in Hin as [Hin|Hin]; apply in_or_app;
          [now left|right; now right]. }
    destruct (named (valueDescriptors db) (ValueDescriptor.Name v)) as [d|] eqn:Hnamed.
    + destruct (String.eqb (ValueDescriptor.Id d) (ValueDescriptor.Id v)) eqn:Hid;
        [|now split].
      apply String.eqb_eq in Hid. now apply (Hupd (Some d)).
    + now apply (Hupd None).
Qed.

(* --------------------------------------------------------------------- *)
(** *** Updating a reading *)
(* --------------------------------------------------------------------- *)

Lemma replaceFirst_find {D : Type} (p : D -> bool) (d : D) (l : list D) :
  p d = true -> forall l', replaceFirst p d l = Some l' -> find p l' = Some d.
Proof.
  intros Hd. induction l as [|a l IH]; intros l' H; simpl in H; [discriminate|].
  destruct (p a) eqn:Ha.
  - inversion H; subst. simpl. now rewrite Hd.
  - destruct (replaceFirst p d l) as [l0|]; [|discriminate].
    inversion H; subst. simpl. rewrite Ha. now apply IH.
Qed.

Lemma replaceFirst_length {D : Type} (p : D -> bool) (d : D) (l : list D) :
  forall l', replaceFirst p d l = Some l' -> List.length l' = List.length l.
Proof.
  induction l as [|a l IH]; intros l' H; simpl in H; [discriminate|].
  destruct (p a).
  - now inversion H.
  - destruct (replaceFirst p d l) as [l0|]; [|discriminate].
    inversion H; subst. simpl. f_equal. now apply IH.
Qed.

(** X15.  [UpdateReading] replaces a reading by its identifier and leaves
    events and value descriptors alone; the number of readings never
    changes.  With the driver letting the calls through: when no stored
    reading carries the identifier the answer is [ErrNotFound] and the
    readings are unchanged; otherwise the answer is nil and [ReadingById],
    called with a hex string of that identifier, then returns the
    caller's reading with the clock's reading as modification time. *)
Theorem update_reading_then_reading_by_id
  (t : Z) (r : Reading.t) (db : Database) (s : string)
  (Hquiet : quiet 2 db = true)
  (Hhex : IsObjectIdHex s = true)
  (Hid : ObjectIdHex s = Reading.Id r) :
  let res := UpdateReading t r db in
  events (snd res) = events db /\
  valueDescriptors (snd res) = valueDescriptors db /\
  List.length (readings (snd res)) = List.length (readings db) /\
  ((forall x, List.In x (readings db) -> Reading.Id x <> Reading.Id r) ->
   fst res = Some ErrNotFound /\ readings (snd res) = readings db) /\
  ((exists x, List.In x (readings db) /\ Reading.Id x = Reading.Id r) ->
   fst res = None /\
   fst (ReadingById s (snd res)) = (Reading.setModified (nowMillis t) r, None)).
Proof.
  cbv zeta.
  destruct (quiet_two (CUpdateId READINGS_COLLECTION (Reading.Id r)) db Hquiet) as [Hn Hn'].
  unfold UpdateReading, bind. rewrite UpdateId_run.
  cbn [Reading.Id Reading.setModified]. rewrite Hn.
  cbn [docs store cname readingsC afterCall readings].
  set (r' := Reading.setModified (nowMillis t) r).
  destruct (replaceFirst (byId readingsC (Reading.Id r)) r' (readings db)) as [l|] eqn:Hr;
    unfold ret; cbn [fst snd orNotFound events readings valueDescriptors setReadings afterCall].
  - split_all; try reflexivity.
    + now apply replaceFirst_length in Hr.
    + intros Hno. exfalso.
      apply replaceFirst_Some in Hr as [l1 [d [l2 [E [Hd _]]]]].
      unfold byId, ObjectId_eqb in Hd. cbn [oid readingsC] in Hd. apply String.eqb_eq in Hd.
      apply (Hno d); [|exact Hd]. rewrite E. apply in_or_app. right. now left.
    + intros _. split; [reflexivity|].
      unfold ReadingById. rewrite Hhex, Hid. cbn [negb].
      fold (byObjectId (Reading.Id r)). unfold getReading, bind. rewrite FindOne_run.
      unfold nextOutcome in *. cbn [pending afterCall setReadings] in *. rewrite Hn'.
      cbn [docs readingsC afterCall readings setReadings].
      rewrite (find_pointwise _ (byId readingsC (Reading.Id r)))
        by (intros a; apply selects_byObjectId_reading).
      assert (Hfind : find (byId readingsC (Reading.Id r)) l = Some r').
      { apply (replaceFirst_find _ r' (readings db)); [|exact Hr].
        unfold byId, ObjectId_eqb. cbn. apply String.eqb_refl. }
      rewrite Hfind. reflexivity.
  - split_all; try reflexivity; [intros _; now split|].
    intros [x [Hin Hx]]. exfalso.
    pose proof (proj1 (replaceFirst_None _ _ _) Hr x Hin) as Hf.
    unfold byId, ObjectId_eqb in Hf. cbn [oid readingsC] in Hf.
    rewrite Hx, String.eqb_refl in Hf. discriminate.
Qed.

(* --------------------------------------------------------------------- *)
(** *** Identifier strings *)
(* --------------------------------------------------------------------- *)

Lemma hexDigit_isHexDigit (c : ascii) :
  isHexDigit c = match hexDigit c with Some _ => true | None => false end.
Proof.
  destruct c as [[] [] [] [] [] [] [] []]; vm_compute; reflexivity.
Qed.

Lemma hexDecode_spec (s : string) :
  (forall c,
      match hexDecode (String c s) with
      | Some d =>
          String.length (String c s) = 2 * String.length d /\
          forallb isHexDigit (list_ascii_of_string (String c s)) = true
      | None =>
          Nat.even (String.length (String c s)) = false \/
          forallb isHexDigit (list_ascii_of_string (String c s)) = false
      end) /\
  match hexDecode s with
  | Some d =>
      String.length s = 2 * String.length d /\
      forallb isHexDigit (list_ascii_of_string s) = true
  | None =>
      Nat.even (String.length s) = false \/
      forallb isHexDigit (list_ascii_of_string s) = false
  end.
Proof.
  induction s as [|a s [IH1 IH2]].
  - split; [intros c; now left|now split].
  - split; [|apply IH1].
    intros c. cbn [hexDecode list_ascii_of_string forallb String.length].
    rewrite !hexDigit_isHexDigit.
    destruct (hexDigit c) as [h|]; [|now right].
    destruct (hexDigit a) as [l|]; [|right; apply andb_false_r].
    destruct (hexDecode s) as [d|].
    + destruct IH2 as [Hlen Hall]. cbn [String.length andb]. split; [lia|exact Hall].
    + cbn [andb]. destruct IH2 as [Hodd|Hbad]; [left|right; exact Hbad].
      exact Hodd.
Qed.

(** X16.  A string passes [IsObjectIdHex] exactly when it is made of 24
    hexadecimal digits, in either case; and the identifier that
    [ObjectIdHex] reads from such a string is a well-formed one, of
    twelve bytes.  So every by-id operation that gets past the check
    queries the store with a well-formed identifier. *)
Theorem object_id_hex_strings_are_24_hex_digits (s : string) :
  (IsObjectIdHex s = true <->
   String.length s = 24 /\ forallb isHexDigit (list_ascii_of_string s) = true) /\
  (IsObjectIdHex s = true ->
   Valid (ObjectIdHex s) = true /\ hexDecode s = Some (ObjectIdHex s)).
Proof.
  pose proof (proj2 (hexDecode_spec s)) as H.
  unfold IsObjectIdHex, ObjectIdHex, Valid.
  destruct (Nat.eqb (String.length s) 24) eqn:Hlen; cbn [negb].
  - apply Nat.eqb_eq in Hlen.
    destruct (hexDecode s) as [d|].
    + destruct H as [Hd Hall].
      assert (Hd12 : String.length d = 12) by lia.
      rewrite Hd12. cbn [Nat.eqb]. rewrite Hd12. now repeat split.
    + split; [|discriminate]. split; [discriminate|]. intros [_ Hall].
      destruct H as [Hodd|Hbad]; [|congruence].
      rewrite Hlen in Hodd. discriminate Hodd.
  - apply Nat.eqb_neq in Hlen. split; [|discriminate].
    split; [discriminate|]. intros [Hl _]. contradiction.
Qed.

(* --------------------------------------------------------------------- *)
(** *** Sorting readings by creation date *)
(* --------------------------------------------------------------------- *)





(* --------------------------------------------------------------------- *)
(** *** The connection *)
(* --------------------------------------------------------------------- *)

Lemma connects_app (l1 l2 : list (Connection.DBConfiguration * option string)) :
  forall current,
    Connection.connects (l1 ++ l2) current
    = Connection.connects l2 (Connection.connects l1 current).
Proof.
  induction l1 as [|[config dial] l1 IH]; intros current; [reflexivity|].
  cbn [app Connection.connects]. apply IH.
Qed.

Lemma connects_all_fail (l : list (Connection.DBConfiguration * option string)) :
  Forall (fun a => snd a <> None) l ->
  forall current, Connection.connects l current = current.
Proof.
  induction 1 as [|[config dial] l Ha _ IH]; intros current; [reflexivity|].
  cbn [Connection.connects]. cbn [snd] in Ha.
  destruct dial as [err|]; [|contradiction]. apply IH.
Qed.

(** X18.  The client that [getCurrentMongoClient] hands out is the one
    of the last [newMongoClient] that reached the server.  A dial that
    fails returns its error and leaves the current client as it was;
    a dial that succeeds returns, and makes current, a client on the
    configured database whose session was dialled at
    ["host:port"] (the port in decimal) with the configured credentials
    and the timeout converted from milliseconds.  Before any successful
    dial [getCurrentMongoClient] fails with its fixed message. *)
Theorem current_client_is_the_last_one_connected
  (before after : list (Connection.DBConfiguration * option string))
  (config : Connection.DBConfiguration) (current : option Connection.MongoClient)
  (Hafter : Forall (fun a => snd a <> None) after) :
  let mc := Connection.mkMongoClient (Connection.dialInfo config)
                                     (Connection.DatabaseName config) in
  Connection.getCurrentMongoClient
    (Connection.connects (before ++ (config, None) :: after) current) = (Some mc, None) /\
  Connection.Addrs (Connection.Session mc)
  = [(Connection.Host config ++ ":" ++ Connection.Itoa (Connection.Port config))%string] /\
  Connection.getCurrentMongoClient (Connection.connects after None)
  = (None, Some "No current mongo client, please create a new client before requesting it") /\
  (forall err,
      Connection.newMongoClient config (Some err) current = ((None, Some err), current)) /\
  Connection.newMongoClient config None current = ((Some mc, None), Some mc).
Proof.
  cbv zeta. split_all; try reflexivity.
  - rewrite connects_app. cbn [Connection.connects Connection.newMongoClient snd].
    now rewrite connects_all_fail.
  - now rewrite connects_all_fail.
Qed.

(* --------------------------------------------------------------------- *)
(** *** The further properties on concrete stores *)
(* --------------------------------------------------------------------- *)

Lemma delete_by_id_removes_one_document_witness :
  IsObjectIdHex "000000000000000000000001" = true /\
  events (snd (DeleteReadingById "000000000000000000000001" dbAfterAdd)) = events dbAfterAdd /\
  readings (snd (DeleteEventById "000000000000000000000001" dbAfterAdd))
  = readings dbAfterAdd.
Proof.
  pose proof (delete_by_id_removes_one_document_of_its_collection
                "000000000000000000000001" dbAfterAdd eq_refl eq_refl)
    as [[_ [Hr _]] [[_ [He _]] _]].
  split; [reflexivity|]. split; [exact He|exact Hr].
Defined.

Lemma delete_then_get_by_id_witness :
  snd (fst (ReadingById "000000000000000000000001"
              (snd (DeleteReadingById "000000000000000000000001" dbAfterAdd))))
  = Some ErrNotFound.
Proof.
  refine (proj1 (proj2 (delete_then_get_by_id_is_not_found
                          "000000000000000000000001" dbAfterAdd eq_refl eq_refl _ _ _))).
  - constructor; [intros []|constructor].
  - constructor; [intros []|constructor].
  - constructor.
Defined.

Lemma scrub_all_events_witness :
  readings (snd (ScrubAllEvents dbAfterAdd)) = [] /\
  events (snd (ScrubAllEvents dbAfterAdd)) = [].
Proof.
  pose proof (scrub_all_events_removes_readings_then_events dbAfterAdd) as H.
  cbv zeta in H. destruct H as [_ [_ H]].
  destruct (H eq_refl) as [_ [Hr [_ [_ He]]]].
  split; [exact Hr|exact (He eq_refl)].
Defined.

Lemma scrub_all_value_descriptors_witness :
  fst (ValueDescriptors (snd (ScrubAllValueDescriptors dbWithTemp))) = ([], None).
Proof.
  pose proof (scrub_all_value_descriptors_empties_the_collection dbWithTemp "temp") as H.
  cbv zeta in H. destruct H as [_ [_ [_ [_ H]]]].
  destruct (H eq_refl) as [_ H']. exact (proj1 (H' eq_refl)).
Defined.

Lemma add_reading_then_reading_by_id_witness :
  fst (ReadingById "000000000000000000000000" (snd (AddReading clockA temp72 emptyDatabase)))
  = (Reading.setCreated (nowMillis clockA) (Reading.setId (objectIdOfCounter 0) temp72), None).
Proof.
  pose proof (add_reading_then_reading_by_id clockA temp72 emptyDatabase) as H.
  cbv zeta in H. destruct H as [_ [_ [_ [_ [_ [_ H]]]]]].
  apply (H "000000000000000000000000" eq_refl); [intros x []|reflexivity|reflexivity].
Defined.

Lemma add_event_then_event_by_id_witness :
  fst (EventById "000000000000000000000000" dbAfterAdd) = (eventAdded, None).
Proof.
  refine (proj1 (add_event_then_event_by_id clockA eventD1 emptyDatabase
                   "000000000000000000000000" eq_refl _ _ _ eq_refl eq_refl)).
  - cbn. lia.
  - intros d [].
  - intros x [].
Defined.

Lemma readings_listings_witness :
  List.length (fst (fst (ReadingsByValueDescriptor "humidity" 5 dbTwoReadings))) = 1.
Proof.
  pose proof (readings_listings_return_the_first_matching_readings dbTwoReadings 5
                "d1" "humidity" "d1" "temp" ["temp"] 0 0 ltac:(discriminate) eq_refl)
    as [_ [H _]].
  rewrite H. reflexivity.
Defined.

Lemma add_event_then_readings_by_device_witness :
  fst (ReadingsByDevice "d1" 10 dbAfterAdd) = (Event.Readings eventAdded, None).
Proof.
  pose proof (add_event_then_readings_by_device clockA eventD1 emptyDatabase 10
                eq_refl ltac:(discriminate)) as H.
  cbv zeta in H. destruct H as [_ H]. exact (H eq_refl).
Defined.

Lemma value_descriptor_listings_witness :
  fst (ValueDescriptorsByUomLabel "C" dbWithTemp) = (valueDescriptors dbWithTemp, None) /\
  fst (ValueDescriptorsByLabel "outdoor" dbWithTemp) = ([], None).
Proof.
  pose proof (value_descriptor_listings_return_the_matching_descriptors dbWithTemp
                "C" "outdoor" "I") as [H _].
  destruct (H eq_refl) as [_ [Hu [Hl _]]].
  split; [rewrite Hu|rewrite Hl]; reflexivity.
Defined.

Lemma events_listings_witness :
  Forall2 loadedFrom (events dbAfterAdd) (fst (fst (EventsForDevice "d1" dbAfterAdd))).
Proof.
  pose proof (events_listings_return_the_matching_events dbAfterAdd "d1" 0 0 1 0 0)
    as [_ [H _]].
  exact (H eq_refl).
Defined.

Lemma counts_agree_with_listings_witness :
  fst (fst (EventCountByDeviceId "d1" dbAfterAdd))
  = Z.of_nat (List.length (fst (fst (EventsForDevice "d1" dbAfterAdd)))).
Proof.
  pose proof (counts_agree_with_listings dbAfterAdd "d1") as [H _].
  destruct (H eq_refl) as [_ [_ [_ [_ [H' _]]]]]. exact (H' eq_refl).
Defined.

Lemma add_value_descriptor_with_new_name_witness :
  fst (ValueDescriptorByName "temp" dbWithTemp)
  = (ValueDescriptor.setId (objectIdOfCounter 0)
       (ValueDescriptor.setCreated (nowMillis clockA) vdTemp), None).
Proof.
  pose proof (add_value_descriptor_with_new_name_then_lookup clockA vdTemp emptyDatabase
                eq_refl eq_refl ltac:(intros d [])) as H.
  cbv zeta in H. exact (proj2 (proj2 (proj2 (proj2 H)))).
Defined.

Lemma value_descriptor_names_stay_unique_witness :
  NoDup (map ValueDescriptor.Name
             (valueDescriptors (snd (AddValueDescriptor clockB vdTempAgain dbWithTemp)))).
Proof.
  refine (proj1 (value_descriptor_names_stay_unique clockB vdTempAgain
                   "000000000000000000000000" dbWithTemp _)).
  constructor; [intros []|constructor].
Defined.

Lemma update_reading_then_reading_by_id_witness :
  fst (UpdateReading clockB (Reading.mk (objectIdOfCounter 1) 0 0 "d1" "temp" "73") dbAfterAdd)
  = None /\
  fst (ReadingById "000000000000000000000001"
         (snd (UpdateReading clockB (Reading.mk (objectIdOfCounter 1) 0 0 "d1" "temp" "73")
                             dbAfterAdd)))
  = (Reading.mk (objectIdOfCounter 1) 0 (nowMillis clockB) "d1" "temp" "73", None).
Proof.
  pose proof (update_reading_then_reading_by_id clockB
                (Reading.mk (objectIdOfCounter 1) 0 0 "d1" "temp" "73") dbAfterAdd
                "000000000000000000000001" eq_refl eq_refl eq_refl) as H.
  cbv zeta in H. destruct H as [_ [_ [_ [_ H]]]].
  apply H. eexists. split; [left; reflexivity|reflexivity].
Defined.

Lemma object_id_hex_strings_witness :
  IsObjectIdHex "0123456789abcdefABCDEF01" = true /\
  Valid (ObjectIdHex "0123456789abcdefABCDEF01") = true.
Proof.
  pose proof (object_id_hex_strings_are_24_hex_digits "0123456789abcdefABCDEF01")
    as [[_ H] H'].
  assert (E : IsObjectIdHex "0123456789abcdefABCDEF01" = true)
    by (apply H; split; reflexivity).
  split; [exact E|exact (proj1 (H' E))].
Defined.


Lemma current_client_witness :
  fst (Connection.getCurrentMongoClient
         (Connection.connects
            [(localConfig, Some "no reachable servers"); (localConfig, None);
             (localConfig, Some "no reachable servers")] None))
  = Some (Connection.mkMongoClient
            (Connection.mkDialInfo ["localhost:27017"] 5000000000 "coredata" "core" "password")
            "coredata").
Proof.
  pose proof (current_client_is_the_last_one_connected
                [(localConfig, Some "no reachable servers")]
                [(localConfig, Some "no reachable servers")] localConfig None) as H.
  cbv zeta in H. destruct H as [H _].
  - constructor; [discriminate|constructor].
  - cbn [app] in H. rewrite H. reflexivity.
Defined.
